(** * Phantom Subtitle Translator: the worker pipeline, embedded and verified

    The development follows [translation.worker.ts] (class
    [TranslationWorkerService]), [jobs.ts] ([createTranslationJob],
    [startWorker]) and [types.ts].

    - JavaScript numbers are IEEE binary64 values: Rocq's primitive [float].
    - Strings are byte strings; every literal of the source is ASCII. The
      string built-ins that depend on the character set ([trim],
      [toUpperCase], [parseInt]) are written out for strings of ASCII
      characters and are the engine's on any other string.
    - Values that come out of [JSON.parse] are dynamically typed: [JSON],
      with [option JSON] where [undefined] may appear.
    - [async] methods are sequential computations over a [World] that holds
      the event bus, the console, the vector index and the log of calls made
      to the outside; a computation either returns or throws.
    - What the program does not define itself is a parameter: the JavaScript
      built-ins that are not written out here ([JsEngine]), the subtitle
      library [srt-parser-2] ([SrtParser]) and the two remote services
      ([Upstream]). *)

From Stdlib Require Import List String Ascii ZArith Floats Bool Lia RelationClasses.
From Stdlib Require Import DecimalString DecimalPos DecimalZ.
Import ListNotations.

Local Open Scope string_scope.
Local Open Scope list_scope.

Declare Scope js_scope.
Delimit Scope js_scope with js.
Infix "^^" := String.append (at level 60, right associativity) : js_scope.
Local Open Scope js_scope.

(** ** Strings *)

Module Str.

(** The double quote, which a string literal here cannot hold. *)
Definition dq : string := String (ascii_of_nat 34) EmptyString.
(** The line feed [\n] and the backtick. *)
Definition lf_char : ascii := ascii_of_nat 10.
Definition lf : string := String lf_char EmptyString.
Definition backtick : string := String (ascii_of_nat 96) EmptyString.

(** [Array.prototype.join] on an array of strings. *)
Fixpoint join (sep : string) (l : list string) : string :=
  match l with
  | [] => ""
  | [x] => x
  | x :: rest => x ^^ sep ^^ join sep rest
  end.

(** [String.prototype.split] with a one-character separator: the segments
    between occurrences, the empty string giving one empty segment. *)
Fixpoint split (sep : ascii) (s : string) : list string :=
  match s with
  | EmptyString => [""]
  | String c rest =>
      if Ascii.eqb c sep then "" :: split sep rest
      else match split sep rest with
           | [] => [String c ""]
           | seg :: segs => String c seg :: segs
           end
  end.

(** A string of ASCII characters only. *)
Fixpoint ascii_only (s : string) : bool :=
  match s with
  | EmptyString => true
  | String c rest => (nat_of_ascii c <? 128)%nat && ascii_only rest
  end.

(** White space and line terminators of the ASCII range, as [trim] and
    [parseInt] skip them (tab, LF, VT, FF, CR, space). *)
Definition is_space (c : ascii) : bool :=
  let n := nat_of_ascii c in
  ((9 <=? n) && (n <=? 13) || (n =? 32))%nat.

Fixpoint trimStart (s : string) : string :=
  match s with
  | String c rest => if is_space c then trimStart rest else s
  | EmptyString => EmptyString
  end.

Fixpoint trimEnd (s : string) : string :=
  match s with
  | EmptyString => EmptyString
  | String c rest =>
      match trimEnd rest with
      | EmptyString => if is_space c then EmptyString else String c EmptyString
      | kept => String c kept
      end
  end.

(** [String.prototype.trim], on a string of ASCII characters. *)
Definition trim (s : string) : string := trimEnd (trimStart s).

(** The text after the first [>] of [s], when there is one. *)
Fixpoint after_gt (s : string) : option string :=
  match s with
  | EmptyString => None
  | String c rest => if Ascii.eqb c ">" then Some rest else after_gt rest
  end.

(** [s.replace(/<[^>]*>/g, '')], on [fuel >= length s]: at a [<] that a
    later [>] closes, the span up to the first such [>] is dropped; a [<]
    that nothing closes stays. *)
Fixpoint strip_tags_fuel (fuel : nat) (s : string) : string :=
  match fuel with
  | O => s
  | S fuel' =>
      match s with
      | EmptyString => EmptyString
      | String c rest =>
          if Ascii.eqb c "<" then
            match after_gt rest with
            | Some tail => strip_tags_fuel fuel' tail
            | None => s
            end
          else String c (strip_tags_fuel fuel' rest)
      end
  end.

Definition strip_tags (s : string) : string := strip_tags_fuel (String.length s) s.

(** [String.prototype.toUpperCase], on a string of ASCII characters. *)
Definition upper_char (c : ascii) : ascii :=
  let n := nat_of_ascii c in
  if ((97 <=? n) && (n <=? 122))%nat then ascii_of_nat (n - 32) else c.

Fixpoint toUpperCase (s : string) : string :=
  match s with
  | EmptyString => EmptyString
  | String c rest => String (upper_char c) (toUpperCase rest)
  end.

End Str.

(** ** Numbers *)

Module Num.

(** The double nearest to an integer (ties to even), as a numeric literal or
    [parseInt] produces it. *)
Definition of_Z (z : Z) : float := SF2Prim (binary_normalize 53 1024 z 0 false).

Definition of_nat (n : nat) : float := of_Z (Z.of_nat n).

Definition digit_value (c : ascii) : option Z :=
  let n := nat_of_ascii c in
  if ((48 <=? n) && (n <=? 57))%nat then Some (Z.of_nat (n - 48)) else None.

(** The longest prefix of decimal digits, read as an integer; [None] when
    the string does not start with a digit. *)
Fixpoint read_digits (acc : option Z) (s : string) : option Z :=
  match s with
  | EmptyString => acc
  | String c rest =>
      match digit_value c with
      | Some d => read_digits (Some (10 * match acc with Some a => a | None => 0 end + d)%Z) rest
      | None => acc
      end
  end.

(** [parseInt(s, 10)], on a string of ASCII characters. *)
Definition parseInt (s : string) : float :=
  let s := Str.trimStart s in
  let '(negative, body) :=
    match s with
    | String "-" rest => (true, rest)
    | String "+" rest => (false, rest)
    | _ => (false, s)
    end in
  match read_digits None body with
  | None => nan
  | Some z => if negative then (- of_Z z)%float else of_Z z
  end.

(** The integer a finite double stands for, when it is one. *)
Definition to_Z (f : float) : option Z :=
  match Prim2SF f with
  | S754_zero _ => Some 0%Z
  | S754_finite s m e =>
      let mag :=
        match e with
        | Z0 => Some (Z.pos m)
        | Zpos p => Some (Z.pos m * 2 ^ Z.pos p)%Z
        | Zneg p =>
            if (Z.pos m mod 2 ^ Z.pos p =? 0)%Z then Some (Z.pos m / 2 ^ Z.pos p)%Z else None
        end in
      match mag with
      | Some z => Some (if s then (- z)%Z else z)
      | None => None
      end
  | _ => None
  end.

Definition decimal (z : Z) : string := NilZero.string_of_int (Z.to_int z).

(** The number that a member typed [number] reads as in arithmetic:
    [undefined], the read of a member that is not there, is [NaN]. *)
Definition of_optional (v : option float) : float :=
  match v with
  | Some n => n
  | None => nan
  end.


End Num.

(** ** Dynamically typed values *)

(** What [JSON.parse] returns. A member of an object is looked up by the
    first field of that name. *)
#[warnings="-register-all"]
Inductive JSON : Type :=
| JNull
| JBool (b : bool)
| JNum (n : float)
| JStr (s : string)
| JArr (items : list JSON)
| JObj (fields : list (string * JSON)).

(** What a remote service throws: a shape of the provider's own. *)
Record UpstreamFault : Type := {
  fault_name : string;
  fault_message : string
}.

(** A thrown value: [new Error(message)] of the source, a [TypeError] or
    [SyntaxError] of the runtime, or the provider's fault as it arrived. *)
Inductive Thrown : Type :=
| Error (message : string)
| TypeError (message : string)
| SyntaxError (message : string)
| UpstreamError (fault : UpstreamFault).

(** The built-ins of the JavaScript engine that are used but not written out
    in this development. [JSON_parse] gives what [JSON.parse] returns or
    throws. [Number_toString_other] prints the numbers that are not integers
    of magnitude up to 2^53 (fractions, and the large numbers, of which the
    engine prints the shortest digits that read back as the same double);
    [StringToNumber] is the numeric reading of a string in a comparison.
    [trim_other], [toUpperCase_other] and [parseInt_other] are [trim],
    [toUpperCase] and [parseInt(_, 10)] on a string that holds a character
    outside ASCII, where the white space and the letters of Unicode count. *)
Class JsEngine : Type := {
  JSON_parse : string -> Thrown + JSON;
  JSON_stringify : JSON -> string;
  Number_toString_other : float -> string;
  StringToNumber : string -> float;
  trim_other : string -> string;
  toUpperCase_other : string -> string;
  parseInt_other : string -> float
}.

(** [error.message]. *)
Definition message_of (e : Thrown) : string :=
  match e with
  | Error m => m
  | TypeError m => m
  | SyntaxError m => m
  | UpstreamError f => fault_message f
  end.

Fixpoint lookup (k : string) (fields : list (string * JSON)) : option JSON :=
  match fields with
  | [] => None
  | (k', v) :: rest => if String.eqb k k' then Some v else lookup k rest
  end.

Definition cannot_read (what k : string) : Thrown :=
  TypeError ("Cannot read properties of " ^^ what ^^ " (reading '" ^^ k ^^ "')").

Definition not_a_function (what : string) : Thrown :=
  TypeError (what ^^ " is not a function").

Definition cannot_convert : Thrown :=
  TypeError "Cannot convert object to primitive value".

(** [v.k] for one of the member names the source reads, none of which is a
    built-in property of strings, numbers or arrays. *)
Definition get (v : option JSON) (k : string) : Thrown + option JSON :=
  match v with
  | None => inl (cannot_read "undefined" k)
  | Some JNull => inl (cannot_read "null" k)
  | Some (JObj fields) => inr (lookup k fields)
  | Some _ => inr None
  end.

(** Truthiness, as [||], [&&], [!] and [?:] test it. *)
Definition truthy (v : option JSON) : bool :=
  match v with
  | None => false
  | Some JNull => false
  | Some (JBool b) => b
  | Some (JNum n) => negb (PrimFloat.eqb n 0 || PrimFloat.is_nan n)
  | Some (JStr s) => negb (String.eqb s "")
  | Some (JArr _) => true
  | Some (JObj _) => true
  end.

(** [a || b]. *)
Definition or_else (a : option JSON) (b : JSON) : JSON :=
  match a with
  | Some v => if truthy a then v else b
  | None => b
  end.

Section Engine.
Context {engine : JsEngine}.

(** [String.prototype.trim]. *)
Definition String_trim (s : string) : string :=
  if Str.ascii_only s then Str.trim s else trim_other s.

(** [String.prototype.toUpperCase]. *)
Definition String_toUpperCase (s : string) : string :=
  if Str.ascii_only s then Str.toUpperCase s else toUpperCase_other s.

(** [parseInt(s, 10)]. *)
Definition parseInt (s : string) : float :=
  if Str.ascii_only s then Num.parseInt s else parseInt_other s.

(** [Number.prototype.toString()], also the number in a template literal.
    An integer of magnitude up to 2^53 prints as its decimal numeral. *)
Definition Number_toString (n : float) : string :=
  match Prim2SF n with
  | S754_nan => "NaN"
  | S754_infinity negative => if negative then "-Infinity" else "Infinity"
  | _ =>
      match Num.to_Z n with
      | Some z => if (Z.abs z <=? 2 ^ 53)%Z then Num.decimal z else Number_toString_other n
      | None => Number_toString_other n
      end
  end.

(** A value that converts to a primitive. An object out of [JSON.parse]
    prints through the [toString] of [Object.prototype], unless it has a
    member [toString] of its own: that member is never a function, and the
    conversion throws. An array prints its elements, so it converts when
    they do. *)
Fixpoint prints (v : JSON) : bool :=
  match v with
  | JArr items => forallb prints items
  | JObj fields =>
      match lookup "toString" fields with
      | Some _ => false
      | None => true
      end
  | _ => true
  end.

(** What a value that converts prints as. An array prints its elements
    joined by commas, [null] among them as nothing. *)
Fixpoint printed (v : JSON) : string :=
  match v with
  | JNull => "null"
  | JBool b => if b then "true" else "false"
  | JNum n => Number_toString n
  | JStr s => s
  | JArr items =>
      Str.join "," (map (fun x => match x with JNull => "" | _ => printed x end) items)
  | JObj _ => "[object Object]"
  end.

(** [undefined] prints as such. *)
Definition printed_any (v : option JSON) : string :=
  match v with
  | None => "undefined"
  | Some v => printed v
  end.

(** A value in a template literal. *)
Definition ToString (v : JSON) : Thrown + string :=
  if prints v then inr (printed v) else inl cannot_convert.

Definition ToString_any (v : option JSON) : Thrown + string :=
  match v with
  | None => inr "undefined"
  | Some v => ToString v
  end.

(** An element of an array under [join]. *)
Definition join_item (v : JSON) : Thrown + string :=
  match v with
  | JNull => inr ""
  | _ => ToString v
  end.

(** The number a value stands for in [v > 0]. *)
Definition ToNumber (v : option JSON) : Thrown + float :=
  match v with
  | None => inr nan
  | Some JNull => inr 0%float
  | Some (JBool b) => inr (if b then 1%float else 0%float)
  | Some (JNum n) => inr n
  | Some (JStr s) => inr (StringToNumber s)
  | Some v =>
      match ToString v with
      | inl e => inl e
      | inr s => inr (StringToNumber s)
      end
  end.

(** [v.length], of a value that is not [null] or [undefined]. *)
Definition length_of (v : JSON) : option JSON :=
  match v with
  | JStr s => Some (JNum (Num.of_nat (String.length s)))
  | JArr items => Some (JNum (Num.of_nat (List.length items)))
  | JObj fields => lookup "length" fields
  | _ => None
  end.

End Engine.

(** ** The data model of [types.ts]

    [SrtLine], [TranslatedSrtLine] and [UserGlossaryItem] are built by the
    program itself. The other interfaces ([TranslationBlueprint],
    [GlossaryTerm], [Keyword], ...) type what [JSON.parse] returned; nothing
    checks them at run time, so such values are [JSON] here. *)

Record SrtLine : Type := {
  sequence : float;
  startTime : string;
  endTime : string;
  duration : float;
  text : string
}.

(** [TranslatedSrtLine extends SrtLine]. *)
Record TranslatedSrtLine : Type := {
  line : SrtLine;
  translatedText : string
}.

Record UserGlossaryItem : Type := {
  term : string;
  translation : string
}.

(** The glossary as [JSON.stringify] and the job payload see it. *)
Definition UserGlossaryItem_json (g : UserGlossaryItem) : JSON :=
  JObj [("term", JStr (term g)); ("translation", JStr (translation g))].

Definition userGlossary_json (glossary : list UserGlossaryItem) : JSON :=
  JArr (map UserGlossaryItem_json glossary).

(** ** The subtitle library *)

(** A line as [fromSrt] of [srt-parser-2] returns it: the members of the
    library's interface [Line]. *)
Record SrtEntry : Type := {
  entry_id : string;
  entry_startTime : string;
  entry_startSeconds : float;
  entry_endTime : string;
  entry_endSeconds : float;
  entry_text : string
}.

(** A line as [toSrt] receives it. *)
Record SrtBlock : Type := {
  block_id : string;
  block_startTime : string;
  block_endTime : string;
  block_text : string
}.

(** [new SrtParser()]: [fromSrt] returns the lines or throws, [toSrt] prints
    them. *)
Class SrtParser : Type := {
  fromSrt : string -> Thrown + list SrtEntry;
  toSrt : list SrtBlock -> string
}.

(** ** The outside world *)

(** The members of [ProgressEvent], by their [type] tag. *)
Inductive ProgressEvent : Type :=
| progress (stage : string)
| blueprint_ready (blueprint : JSON)
| completed (result : string)
| failed (error : string).

Definition is_terminal (e : ProgressEvent) : bool :=
  match e with
  | completed _ | failed _ => true
  | _ => false
  end.

Record Metadata : Type := {
  md_jobId : string;
  md_text : string
}.

Record VectorRecord : Type := {
  vec_id : string;
  vec_values : list float;
  vec_metadata : Metadata
}.

(** A match of a vector query; the service decides whether it carries the
    stored metadata. *)
Record Match : Type := {
  match_id : string;
  match_metadata : option Metadata
}.

Record GenerateRequest : Type := {
  req_model : string;
  req_prompt : string;
  req_json : bool          (* generationConfig: responseMimeType application/json *)
}.

Record QueryRequest : Type := {
  q_vector : list float;
  q_topK : nat;
  q_filter_jobId : string  (* filter: { jobId } *)
}.

(** The calls that leave the process. The source makes no other: nothing
    in it deletes from the vector index. *)
Inductive Call : Type :=
| GenerateContent (req : GenerateRequest)
| BatchEmbedContents (model : string) (texts : list string)
| EmbedContent (model : string) (content : string)
| Upsert (vectors : list VectorRecord)
| Query (req : QueryRequest).

(** The two remote services. Every answer may depend on how many calls were
    made before ([nat]), so that the same request can fail once and succeed
    later; the vector index answers a query from what it stores. *)
Class Upstream : Type := {
  generateContent : nat -> GenerateRequest -> UpstreamFault + string;
  batchEmbedContents : nat -> list string -> UpstreamFault + list (list float);
  embedContent : nat -> string -> UpstreamFault + list float;
  upsert_fault : nat -> list VectorRecord -> option UpstreamFault;
  query : nat -> list VectorRecord -> QueryRequest -> UpstreamFault + option (list Match)
}.

Inductive ConsoleLine : Type :=
| console_log (line : string)
| console_error (line : string) (error : Thrown).

Record World : Type := {
  bus : list (string * ProgressEvent);   (* jobEvents.emit(jobId, event) *)
  jobProgress : list (string * string);  (* job.updateProgress({ stage }) *)
  console : list ConsoleLine;
  vectorIndex : list VectorRecord;       (* what pineconeIndex stores *)
  calls : list Call
}.

Definition empty_world : World :=
  {| bus := []; jobProgress := []; console := []; vectorIndex := []; calls := [] |}.

(** ** Computations *)

Definition M (A : Type) : Type := World -> (Thrown + A) * World.

Definition ret {A} (a : A) : M A := fun w => (inr a, w).

Definition throw {A} (e : Thrown) : M A := fun w => (inl e, w).

Definition bind {A B} (m : M A) (k : A -> M B) : M B :=
  fun w =>
    match m w with
    | (inr a, w') => k a w'
    | (inl e, w') => (inl e, w')
    end.

(** [try { body } catch (error) { handler }]. *)
Definition try_catch {A} (body : M A) (handler : Thrown -> M A) : M A :=
  fun w =>
    match body w with
    | (inl e, w') => handler e w'
    | (inr a, w') => (inr a, w')
    end.

(** A pure step that may throw. *)
Definition lift {A} (r : Thrown + A) : M A := fun w => (r, w).

Notation "x <- m ;; k" := (bind m (fun x => k))
  (at level 61, m at next level, right associativity) : js_scope.
Notation "m ;; k" := (bind m (fun _ => k))
  (at level 61, right associativity) : js_scope.

(** [for (const x of xs) { body }], the results collected in order. *)
Fixpoint for_each {A B} (body : A -> M B) (xs : list A) : M (list B) :=
  match xs with
  | [] => ret []
  | x :: rest => y <- body x ;; ys <- for_each body rest ;; ret (y :: ys)
  end.

Definition emit (jobId : string) (e : ProgressEvent) : M unit :=
  fun w => (inr tt,
    {| bus := bus w ++ [(jobId, e)]; jobProgress := jobProgress w; console := console w;
       vectorIndex := vectorIndex w; calls := calls w |}).

Definition updateProgress (jobId stage : string) : M unit :=
  fun w => (inr tt,
    {| bus := bus w; jobProgress := jobProgress w ++ [(jobId, stage)]; console := console w;
       vectorIndex := vectorIndex w; calls := calls w |}).

Definition print (l : ConsoleLine) : M unit :=
  fun w => (inr tt,
    {| bus := bus w; jobProgress := jobProgress w; console := console w ++ [l];
       vectorIndex := vectorIndex w; calls := calls w |}).

Definition log_call (c : Call) (w : World) : World :=
  {| bus := bus w; jobProgress := jobProgress w; console := console w;
     vectorIndex := vectorIndex w; calls := calls w ++ [c] |}.

Definition set_index (store : list VectorRecord) (w : World) : World :=
  {| bus := bus w; jobProgress := jobProgress w; console := console w;
     vectorIndex := store; calls := calls w |}.

Definition of_service {A} (r : UpstreamFault + A) : Thrown + A :=
  match r with
  | inl f => inl (UpstreamError f)
  | inr a => inr a
  end.

(** The index after an upsert: a record replaces the stored one of its id. *)
Definition put (v : VectorRecord) (store : list VectorRecord) : list VectorRecord :=
  filter (fun r => negb (String.eqb (vec_id r) (vec_id v))) store ++ [v].

Definition store_upsert (vectors store : list VectorRecord) : list VectorRecord :=
  fold_left (fun st v => put v st) vectors store.

Section Services.
Context {upstream : Upstream}.

Definition call_generateContent (req : GenerateRequest) : M string :=
  fun w => (of_service (generateContent (List.length (calls w)) req),
            log_call (GenerateContent req) w).

Definition call_batchEmbedContents (model : string) (texts : list string) : M (list (list float)) :=
  fun w => (of_service (batchEmbedContents (List.length (calls w)) texts),
            log_call (BatchEmbedContents model texts) w).

Definition call_embedContent (model : string) (content : string) : M (list float) :=
  fun w => (of_service (embedContent (List.length (calls w)) content),
            log_call (EmbedContent model content) w).

Definition call_upsert (vectors : list VectorRecord) : M unit :=
  fun w =>
    match upsert_fault (List.length (calls w)) vectors with
    | Some f => (inl (UpstreamError f), log_call (Upsert vectors) w)
    | None =>
        (inr tt, log_call (Upsert vectors) (set_index (store_upsert vectors (vectorIndex w)) w))
    end.

Definition call_query (req : QueryRequest) : M (option (list Match)) :=
  fun w => (of_service (query (List.length (calls w)) (vectorIndex w) req),
            log_call (Query req) w).

End Services.

(** ** Pure steps that may throw *)

Definition bindE {A B} (r : Thrown + A) (k : A -> Thrown + B) : Thrown + B :=
  match r with
  | inl e => inl e
  | inr a => k a
  end.

Notation "'let*' x := r 'in' k" := (bindE r (fun x => k))
  (at level 61, x name, r at next level, right associativity) : js_scope.

(** [try { body } catch (error) { handler }] around steps without effects. *)
Definition attempt {A} (body : Thrown + A) (handler : Thrown -> Thrown + A) : Thrown + A :=
  match body with
  | inl e => handler e
  | inr a => inr a
  end.

(** [xs.map((x, index) => f(index, x))], the index starting at [from]. *)
Fixpoint mapi_from {A B} (from : nat) (f : nat -> A -> B) (xs : list A) : list B :=
  match xs with
  | [] => []
  | x :: rest => f from x :: mapi_from (S from) f rest
  end.

Definition mapi {A B} (f : nat -> A -> B) (xs : list A) : list B := mapi_from 0 f xs.

(** [map] with a callback that may throw: the first throw ends it. *)
Fixpoint mapE {A B} (f : A -> Thrown + B) (xs : list A) : Thrown + list B :=
  match xs with
  | [] => inr []
  | x :: rest => let* y := f x in let* ys := mapE f rest in inr (y :: ys)
  end.

(** [for (let i = 0; i < xs.length; i += size) out.push(xs.slice(i, i + size))]. *)
Fixpoint chunks_fuel {A} (fuel size : nat) (xs : list A) : list (list A) :=
  match fuel with
  | O => []
  | S fuel' =>
      match xs with
      | [] => []
      | _ => firstn size xs :: chunks_fuel fuel' size (skipn size xs)
      end
  end.

Definition chunks {A} (size : nat) (xs : list A) : list (list A) :=
  chunks_fuel (List.length xs) size xs.

(** ** [translation.worker.ts] *)

Module TranslationWorkerService.

Definition embeddingModelName : string := "text-embedding-004".
Definition flashModel : string := "gemini-2.5-flash".
Definition proModel : string := "gemini-2.5-pro".
Definition linesPerBatch : nat := 15.

Definition zero_timestamp : string := "00:00:00,000".
Definition no_context : string := "No relevant context found.".
Definition json_tool_failure : string := "An internal AI error occurred while processing data.".
Definition text_gen_failure : string := "An internal AI error occurred during translation.".
Definition invalid_blueprint : string := "AI failed to generate a valid blueprint.".

(** [l.id] of an [SrtLine]: the interface has no such member, and [parseSrt]
    builds no such property, so the read gives [undefined]. *)
Definition SrtLine_id (l : SrtLine) : option JSON := None.

(** [line.startTimeSeconds] and [line.endTimeSeconds] of a line of the
    library: it has no members of these names (its seconds are
    [startSeconds] and [endSeconds]), so the reads give [undefined]. *)
Definition SrtEntry_startTimeSeconds (entry : SrtEntry) : option float := None.
Definition SrtEntry_endTimeSeconds (entry : SrtEntry) : option float := None.

Section Service.
Context {engine : JsEngine} {parser : SrtParser} {upstream : Upstream}.

(** *** The subtitle parser *)

Definition parsed_line (entry : SrtEntry) : SrtLine :=
  let duration := (Num.of_optional (SrtEntry_endTimeSeconds entry)
                   - Num.of_optional (SrtEntry_startTimeSeconds entry))%float in
  {| sequence := parseInt (entry_id entry);
     startTime := entry_startTime entry;
     endTime := entry_endTime entry;
     duration := if PrimFloat.is_nan duration then 0%float else duration;
     text := String_trim (Str.strip_tags (entry_text entry)) |}.

Definition fallback_line (index : nat) (text : string) : SrtLine :=
  {| sequence := Num.of_nat (index + 1);
     startTime := zero_timestamp;
     endTime := zero_timestamp;
     duration := 0%float;
     text := text |}.

Definition parseSrt (srtContent : string) : Thrown + list SrtLine :=
  attempt
    (let* srtArray := fromSrt srtContent in
     inr (map parsed_line srtArray))
    (fun error => inr (mapi fallback_line (Str.split Str.lf_char srtContent))).

Definition srt_block (l : TranslatedSrtLine) : SrtBlock :=
  {| block_id := Number_toString (sequence (line l));
     block_startTime := startTime (line l);
     block_endTime := endTime (line l);
     block_text := translatedText l |}.

Definition toSrtString (lines : list TranslatedSrtLine) : string :=
  toSrt (map srt_block lines).

(** *** The prompts *)

Definition q (s : string) : string := Str.dq ^^ s ^^ Str.dq.
Definition dq3 : string := Str.dq ^^ Str.dq ^^ Str.dq.

Definition getPhase1A_Prompt (subtitle : string) : string :=
  "Analyze the subtitle text. Extract technical terms, named entities, and idioms. For each, find a concise definition. Respond with a single JSON object: `{ "
  ^^ q "keywords" ^^ ": [{ " ^^ q "term" ^^ ": string, " ^^ q "definition"
  ^^ ": string }] }`. If none, return empty array. Text: " ^^ dq3 ^^ subtitle ^^ dq3.

Definition getPhase1B_Prompt (keywords : JSON) : string :=
  "For each English term, find 3 common Persian translations. Respond with a single JSON object: `{ "
  ^^ q "grounded_keywords" ^^ ": [{ " ^^ q "term" ^^ ": string, " ^^ q "translations"
  ^^ ": [string] }] }`. Terms: " ^^ JSON_stringify keywords.

Definition getPhase1C_Prompt (subtitle tone : string) (groundedKeywords userGlossary : JSON) : string :=
  "Generate a " ^^ q "Translation Blueprint"
  ^^ " JSON. Analyze the script for summary, keyPoints, characterProfiles, and culturalNuances." ^^ Str.lf
  ^^ "    **Glossary Rules (CRITICAL):**" ^^ Str.lf
  ^^ "    1.  The User-Provided Glossary is SACROSANCT. For every term in it, its translation MUST be used as the 'proposedTranslation'." ^^ Str.lf
  ^^ "    2.  For the remaining AI-Generated Keywords, select the best 'proposedTranslation' from its 'translations' array based on the '"
  ^^ tone ^^ "' tone and script context." ^^ Str.lf
  ^^ "    3.  Justify each choice with evidence from the script." ^^ Str.lf
  ^^ "    **User-Provided Glossary:** " ^^ JSON_stringify userGlossary ^^ Str.lf
  ^^ "    **AI-Generated Keywords:** " ^^ JSON_stringify groundedKeywords ^^ Str.lf
  ^^ "    **Script:** " ^^ dq3 ^^ subtitle ^^ dq3.

(** [`${l.id} | ${l.text}`]: the row of a line, whose [l.id] is
    [undefined]. *)
Definition triage_row (l : SrtLine) : string :=
  printed_any (SrtLine_id l) ^^ " | " ^^ text l.

Definition getTriageAgentPrompt (batch : list SrtLine) : string :=
  "You are a linguistic triage agent. Classify each subtitle line's complexity. Respond with a JSON array ONLY: `{ "
  ^^ q "classifications" ^^ ": [{ " ^^ q "id" ^^ ": number, " ^^ q "model" ^^ ": "
  ^^ q "flash" ^^ " | " ^^ q "pro" ^^ " }] }`." ^^ Str.lf
  ^^ "    - Use " ^^ q "pro"
  ^^ " for lines with idioms, complex grammar, slang, or deep emotional/cultural nuance." ^^ Str.lf
  ^^ "    - Use " ^^ q "flash" ^^ " for simple, direct, or declarative sentences." ^^ Str.lf
  ^^ "    Input for Classification:" ^^ Str.lf
  ^^ "    ---" ^^ Str.lf
  ^^ "    " ^^ Str.join Str.lf (map triage_row batch) ^^ Str.lf
  ^^ "    ---" ^^ Str.lf
  ^^ "    Produce the JSON output.".

Definition getStep2_Prompt (line : SrtLine) (context brief tone : string) : string :=
  "You are a Master Transcreator. Transcreate ONLY the " ^^ q "Current Line"
  ^^ " into fluent Persian, adhering to the " ^^ q "Project Brief" ^^ " and '" ^^ tone
  ^^ "' tone. Use the " ^^ q "Long-Term Memory" ^^ " for context." ^^ Str.lf
  ^^ "Project Brief:" ^^ Str.lf
  ^^ "---" ^^ Str.lf
  ^^ brief ^^ Str.lf
  ^^ "---" ^^ Str.lf
  ^^ "Long-Term Memory (Context from script):" ^^ Str.lf
  ^^ "---" ^^ Str.lf
  ^^ context ^^ Str.lf
  ^^ "---" ^^ Str.lf
  ^^ "Current Line: " ^^ q (text line) ^^ Str.lf
  ^^ "---" ^^ Str.lf
  ^^ "Provide ONLY the single line of Persian transcreation.".

(** *** The gateway *)

Definition runJsonTool (modelName prompt : string) : M JSON :=
  try_catch
    (reply <- call_generateContent
                {| req_model := modelName; req_prompt := prompt; req_json := true |} ;;
     lift (JSON_parse reply))
    (fun error =>
       print (console_error ("Error running JSON tool with model " ^^ modelName ^^ ":") error) ;;
       throw (Error json_tool_failure)).

Definition runTextGen (modelName prompt : string) : M string :=
  try_catch
    (call_generateContent
       {| req_model := modelName; req_prompt := prompt; req_json := false |})
    (fun error =>
       print (console_error ("Error running text generation with model " ^^ modelName ^^ ":") error) ;;
       throw (Error text_gen_failure)).

(** *** The context memory store *)

(** The vector of line [i] in the reply of [batchEmbedContents]:
    [embeddings.embeddings[i].values]. *)
Definition embedding_at (embeddings : list (list float)) (i : nat) : Thrown + list float :=
  match nth_error embeddings i with
  | Some values => inr values
  | None => inl (cannot_read "undefined" "values")
  end.

Definition vector_of (jobId : string) (embeddings : list (list float))
    (i : nat) (line : SrtLine) : Thrown + VectorRecord :=
  let* values := embedding_at embeddings i in
  inr {| vec_id := jobId ^^ "-" ^^ Number_toString (sequence line);
         vec_values := values;
         vec_metadata := {| md_jobId := jobId; md_text := text line |} |}.

Definition indexContent (jobId : string) (lines : list SrtLine) : M unit :=
  embeddings <- call_batchEmbedContents embeddingModelName (map text lines) ;;
  vectors <- lift (mapE (fun p => vector_of jobId embeddings (fst p) (snd p))
                        (mapi pair lines)) ;;
  for_each call_upsert (chunks 100 vectors) ;;
  ret tt.

(** [(match.metadata as any)?.text], as [join] prints it. *)
Definition match_text (m : Match) : string :=
  match match_metadata m with
  | Some md => md_text md
  | None => ""
  end.

(** [results.matches?.map(...).join('\n') || 'No relevant context found.'] *)
Definition context_of (matches : option (list Match)) : string :=
  match matches with
  | None => no_context
  | Some ms =>
      let joined := Str.join Str.lf (map match_text ms) in
      if String.eqb joined "" then no_context else joined
  end.

Definition queryContext (jobId text : string) (topK : nat) : M string :=
  embedding <- call_embedContent embeddingModelName text ;;
  results <- call_query {| q_vector := embedding; q_topK := topK; q_filter_jobId := jobId |} ;;
  ret (context_of results).

Definition cleanupIndex (jobId : string) : M unit :=
  print (console_log ("Cleanup for job " ^^ jobId ^^ " would be performed here.")).

(** *** Triage *)

Definition triageBatch (batch : list SrtLine) : M JSON :=
  let prompt := getTriageAgentPrompt batch in
  result <- runJsonTool flashModel prompt ;;
  classifications <- lift (get (Some result) "classifications") ;;
  ret (or_else classifications (JArr [])).

(** [t.id === line.sequence] *)
Definition id_is (t : JSON) (sequence : float) : Thrown + bool :=
  let* id := get (Some t) "id" in
  inr match id with
      | Some (JNum n) => PrimFloat.eqb n sequence
      | _ => false
      end.

(** [items.find(t => t.id === sequence)] *)
Fixpoint find_id (items : list JSON) (sequence : float) : Thrown + option JSON :=
  match items with
  | [] => inr None
  | t :: rest =>
      let* hit := id_is t sequence in
      if hit then inr (Some t) else find_id rest sequence
  end.

(** [triageResult.find(t => t.id === line.sequence)?.model || 'flash'] *)
Definition modelChoice (triageResult : JSON) (line : SrtLine) : Thrown + JSON :=
  match triageResult with
  | JArr items =>
      let* found := find_id items (sequence line) in
      let* model :=
        match found with
        | Some t => get (Some t) "model"
        | None => inr None
        end in
      inr (or_else model (JStr "flash"))
  | _ => inl (not_a_function "triageResult.find")
  end.

(** [modelChoice === 'pro' ? this.proModel : this.flashModel] *)
Definition modelToUse (choice : JSON) : string :=
  match choice with
  | JStr s => if String.eqb s "pro" then proModel else flashModel
  | _ => flashModel
  end.

(** [modelChoice.toUpperCase()] *)
Definition upper (choice : JSON) : Thrown + string :=
  match choice with
  | JStr s => inr (String_toUpperCase s)
  | _ => inl (not_a_function "modelChoice.toUpperCase")
  end.

(** *** The brief *)

(** [v.join(sep)], where the source calls the value [what]. *)
Definition join_of (what : string) (v : option JSON) (sep : string) : Thrown + string :=
  match v with
  | None => inl (cannot_read "undefined" "join")
  | Some JNull => inl (cannot_read "null" "join")
  | Some (JArr items) => let* parts := mapE join_item items in inr (Str.join sep parts)
  | Some _ => inl (not_a_function (what ^^ ".join"))
  end.

(** [v.forEach(x => { brief += piece(x) })]: what the loop appends. *)
Definition forEach_of (what : string) (v : option JSON) (piece : JSON -> Thrown + string)
    : Thrown + string :=
  match v with
  | None => inl (cannot_read "undefined" "forEach")
  | Some JNull => inl (cannot_read "null" "forEach")
  | Some (JArr items) => let* pieces := mapE piece items in inr (String.concat "" pieces)
  | Some _ => inl (not_a_function (what ^^ ".forEach"))
  end.

Definition profile_piece (p : JSON) : Thrown + string :=
  let* personaName := get (Some p) "personaName" in
  let* personaName := ToString_any personaName in
  let* speakingStyle := get (Some p) "speakingStyle" in
  let* speakingStyle := ToString_any speakingStyle in
  let* voiceConsistencyRule := get (Some p) "voiceConsistencyRule" in
  let* voiceConsistencyRule := ToString_any voiceConsistencyRule in
  inr ("- Persona: " ^^ personaName ^^ Str.lf
       ^^ "  - Style: " ^^ speakingStyle ^^ Str.lf
       ^^ "  - Rule: " ^^ voiceConsistencyRule ^^ Str.lf).

Definition glossary_piece (g : JSON) : Thrown + string :=
  let* term := get (Some g) "term" in
  let* term := ToString_any term in
  let* proposedTranslation := get (Some g) "proposedTranslation" in
  let* proposedTranslation := ToString_any proposedTranslation in
  inr ("- Term: " ^^ q term ^^ Str.lf
       ^^ "  - Approved Persian: " ^^ q proposedTranslation ^^ Str.lf).

Definition stringifyBlueprint (blueprint : JSON) : Thrown + string :=
  let* summary := get (Some blueprint) "summary" in
  let* summary := ToString_any summary in
  let* keyPoints := get (Some blueprint) "keyPoints" in
  let* themes := join_of "blueprint.keyPoints" keyPoints ", " in
  let brief := "**1. Plot & Theme Synthesis:**" ^^ Str.lf ^^ "- Summary: " ^^ summary
               ^^ Str.lf ^^ "- Key Themes: " ^^ themes ^^ Str.lf ^^ Str.lf in
  let brief := brief ^^ "**2. Character Persona Profiles:**" ^^ Str.lf in
  let* characterProfiles := get (Some blueprint) "characterProfiles" in
  let* profiles := forEach_of "blueprint.characterProfiles" characterProfiles profile_piece in
  let brief := brief ^^ profiles in
  let brief := brief ^^ Str.lf ^^ "**3. " ^^ q "World Anvil" ^^ " Glossary (Sacrosanct):**" ^^ Str.lf in
  let* glossary := get (Some blueprint) "glossary" in
  let* entries := forEach_of "blueprint.glossary" glossary glossary_piece in
  let brief := brief ^^ entries in
  let* culturalNuances := get (Some blueprint) "culturalNuances" in
  match culturalNuances with
  | Some nuances =>
      if truthy culturalNuances then
        let* count := ToNumber (length_of nuances) in
        if PrimFloat.ltb 0 count then
          let* joined := join_of "blueprint.culturalNuances" culturalNuances (Str.lf ^^ "- ") in
          inr (brief ^^ Str.lf ^^ "**4. Cultural Nuances:**" ^^ Str.lf ^^ "- " ^^ joined ^^ Str.lf)
        else inr brief
      else inr brief
  | None => inr brief
  end.

(** *** The two public phases *)

Definition generateBlueprint (subtitleContent tone : string)
    (userGlossary : list UserGlossaryItem) (updateStage : string -> M unit) : M JSON :=
  srtLines <- lift (parseSrt subtitleContent) ;;
  let subtitleText := Str.join Str.lf (map text srtLines) in
  updateStage "Phase 1a: Extracting Keywords..." ;;
  extracted <- runJsonTool flashModel (getPhase1A_Prompt subtitleText) ;;
  keywords <- lift (get (Some extracted) "keywords") ;;
  let keywords := or_else keywords (JArr []) in
  updateStage "Phase 1b: Grounding Translations..." ;;
  grounded <- runJsonTool flashModel (getPhase1B_Prompt keywords) ;;
  groundedKeywords <- lift (get (Some grounded) "grounded_keywords") ;;
  let groundedKeywords := or_else groundedKeywords (JArr []) in
  updateStage "Phase 1c: Assembling Blueprint..." ;;
  blueprint <- runJsonTool proModel
                 (getPhase1C_Prompt subtitleText tone groundedKeywords
                    (userGlossary_json userGlossary)) ;;
  glossary <- lift (get (Some blueprint) "glossary") ;;
  if truthy glossary then ret blueprint else throw (Error invalid_blueprint).

(** The body of [for (const line of batch)]. *)
Definition translateLine (jobId tone translationBrief : string)
    (updateStage : string -> M unit) (triageResult : JSON) (line : SrtLine) : M string :=
  choice <- lift (modelChoice triageResult line) ;;
  let model := modelToUse choice in
  label <- lift (upper choice) ;;
  updateStage ("Translating line " ^^ Number_toString (sequence line) ^^ " with " ^^ label ^^ " model") ;;
  longTermContext <- queryContext jobId (text line) 5 ;;
  runTextGen model (getStep2_Prompt line longTermContext translationBrief tone).

(** [batch.map((line, index) => ({ ...line, translatedText: texts[index] }))],
    for the [texts] the loop pushed, one per line. *)
Definition translatedBatch (batch : list SrtLine) (texts : list string) : list TranslatedSrtLine :=
  map (fun p => {| line := fst p; translatedText := snd p |}) (combine batch texts).

(** The body of [for (let i = 0; i < batches.length; i++)]. *)
Definition translateBatch (jobId tone translationBrief : string)
    (updateStage : string -> M unit) (total : nat) (i : nat) (batch : list SrtLine)
    : M (list TranslatedSrtLine) :=
  let progress := "Batch " ^^ Number_toString (Num.of_nat (i + 1)) ^^ " of "
                  ^^ Number_toString (Num.of_nat total) in
  updateStage ("Triage Agent classifying " ^^ progress) ;;
  triageResult <- triageBatch batch ;;
  translatedTextLines <- for_each (translateLine jobId tone translationBrief updateStage triageResult) batch ;;
  ret (translatedBatch batch translatedTextLines).

Definition executeTranslation (jobId subtitleContent tone translationBrief : string)
    (updateStage : string -> M unit) : M string :=
  srtLines <- lift (parseSrt subtitleContent) ;;
  updateStage "Indexing script for long-term memory..." ;;
  indexContent jobId srtLines ;;
  let batches := chunks linesPerBatch srtLines in
  translated <- for_each (fun p => translateBatch jobId tone translationBrief updateStage
                                     (List.length batches) (fst p) (snd p))
                         (mapi pair batches) ;;
  let allTranslatedLines := List.concat translated in
  updateStage "Cleaning up long-term memory..." ;;
  cleanupIndex jobId ;;
  ret (toSrtString allTranslatedLines).

End Service.
End TranslationWorkerService.

(** ** [jobs.ts] *)

Module Jobs.
Import TranslationWorkerService.

Record TranslationJobData : Type := {
  jobId : string;
  subtitleContent : string;
  tone : string;
  thinkingMode : bool;
  userGlossary : list UserGlossaryItem
}.

(** The options [createTranslationJob] passes to [translationQueue.add]. *)
Record JobsOptions : Type := {
  attempts : nat;
  backoff_exponential : bool;
  backoff_delay : N
}.

Record Job : Type := {
  job_id : string;
  job_data : TranslationJobData;
  job_opts : JobsOptions
}.

(** [Omit<TranslationJobData, 'jobId'>] *)
Record Submission : Type := {
  sub_subtitleContent : string;
  sub_tone : string;
  sub_thinkingMode : bool;
  sub_userGlossary : list UserGlossaryItem
}.

(** [createTranslationJob], once [job.updateData] has stored the id the
    queue gave the job. *)
Definition createTranslationJob (id : string) (data : Submission) : Job :=
  {| job_id := id;
     job_data := {| jobId := id;
                    subtitleContent := sub_subtitleContent data;
                    tone := sub_tone data;
                    thinkingMode := sub_thinkingMode data;
                    userGlossary := sub_userGlossary data |};
     job_opts := {| attempts := 2; backoff_exponential := true; backoff_delay := 10000%N |} |}.

(** How the queue left a job. *)
Inductive Outcome : Type :=
| returned (result : string)
| exhausted (failedReason : string).

Section Worker.
Context {engine : JsEngine} {parser : SrtParser} {upstream : Upstream}.

Definition updateStage (jobId : string) (stage : string) : M unit :=
  updateProgress jobId stage ;;
  emit jobId (progress stage).

(** The processor [startWorker] gives to [new Worker]: one attempt. *)
Definition processor (job : Job) : M string :=
  let data := job_data job in
  try_catch
    (updateStage (jobId data) "Generating blueprint..." ;;
     blueprint <- generateBlueprint (subtitleContent data) (tone data) (userGlossary data)
                    (updateStage (jobId data)) ;;
     translationBrief <- lift (stringifyBlueprint blueprint) ;;
     emit (jobId data) (blueprint_ready blueprint) ;;
     updateStage (jobId data) "Executing translation..." ;;
     finalTranslation <- executeTranslation (jobId data) (subtitleContent data) (tone data)
                           translationBrief (updateStage (jobId data)) ;;
     emit (jobId data) (completed finalTranslation) ;;
     ret finalTranslation)
    (fun error =>
       emit (jobId data) (failed (message_of error)) ;;
       throw error).

(** The retry rule of the queue library that the [attempts] option selects:
    a job whose processor throws is run again, after the backoff delay, until
    [attempts] runs were made; the run that returns completes the job. *)
Fixpoint run_attempts (remaining : nat) (job : Job) : M Outcome :=
  match remaining with
  | O => ret (exhausted "")
  | S later =>
      try_catch
        (result <- processor job ;; ret (returned result))
        (fun error =>
           match later with
           | O => ret (exhausted (message_of error))
           | S _ => run_attempts later job
           end)
  end.

(** A queued job worked off by the single worker. *)
Definition work (job : Job) : M Outcome :=
  run_attempts (Nat.max 1 (attempts (job_opts job))) job.

End Worker.

(** The terminal events published for [jobId], in order. *)
Definition terminal_events (jobId : string) (events : list (string * ProgressEvent))
    : list ProgressEvent :=
  map snd (filter (fun p => String.eqb (fst p) jobId && is_terminal (snd p)) events).

End Jobs.

(** ** Vocabulary of the properties *)



(** The lines handed to [toSrt] when the parsed lines are rendered with
    [texts] as their translations. *)
Definition rendered {engine : JsEngine} (lines : list SrtLine) (texts : list string)
    : list SrtBlock :=
  map TranslationWorkerService.srt_block (TranslationWorkerService.translatedBatch lines texts).

(** The index stores nothing under [jobId]. *)
Definition never_indexed (jobId : string) (store : list VectorRecord) : Prop :=
  Forall (fun r => md_jobId (vec_metadata r) <> jobId) store.

(** A vector service that applies the filter of a query: every match it
    returns is a stored record of the job named in the filter. *)
Definition honours_filter (service : Upstream) : Prop :=
  forall n store req matches m,
    @query service n store req = inr (Some matches) ->
    In m matches ->
    exists r, In r store /\ match_id m = vec_id r /\
              md_jobId (vec_metadata r) = q_filter_jobId req.

(** The records of a job in the index. *)
Definition namespace (jobId : string) (store : list VectorRecord) : list VectorRecord :=
  filter (fun r => String.eqb (md_jobId (vec_metadata r)) jobId) store.

(** [m] changes the world only along [R]. *)
Definition keeps (R : World -> World -> Prop) {A} (m : M A) : Prop :=
  forall w, R w (snd (m w)).

(** A published event that is not terminal. *)
Definition quiet (p : string * ProgressEvent) : Prop := is_terminal (snd p) = false.

(** A call that, if it is a query, is filtered by [jobId]. *)
Definition scoped (jobId : string) (c : Call) : Prop :=
  match c with
  | Query req => q_filter_jobId req = jobId
  | _ => True
  end.

(** What the steps of an attempt of job [jobId] do to the world: they
    publish events that satisfy [P], they send queries filtered by the job,
    and they leave every id of the vector index in place. *)
Record inside (P : string * ProgressEvent -> Prop) (jobId : string) (w w' : World) : Prop := {
  inside_bus : exists new, bus w' = bus w ++ new /\ Forall P new;
  inside_calls : exists new, calls w' = calls w ++ new /\ Forall (scoped jobId) new;
  inside_index : incl (map vec_id (vectorIndex w)) (map vec_id (vectorIndex w'))
}.

(** The vector index is what it was. *)
Definition same_index (w w' : World) : Prop := vectorIndex w' = vectorIndex w.

(** What the [try] block of the processor does to the bus: events that are
    not terminal, and then [completed] if it returns. *)
Definition try_block_ends (jid : string) (w : World) (r : Thrown + string) (w' : World) : Prop :=
  exists new,
    Forall quiet new /\
    bus w' = bus w ++ new ++
             match r with
             | inr result => [(jid, completed result)]
             | inl _ => []
             end.

(** The terminal event an attempt publishes for its result. *)
Definition terminal_of (r : Thrown + string) : ProgressEvent :=
  match r with
  | inr result => completed result
  | inl e => failed (message_of e)
  end.

(** Any event. *)
Definition any_event (p : string * ProgressEvent) : Prop := True.

(** A published event that announces a stage of [jobId]. *)
Definition announces (jobId : string) (p : string * ProgressEvent) : Prop :=
  exists stage, p = (jobId, progress stage).

(** The [generateContent] call of [runJsonTool]. *)
Definition json_call (model_prompt : string * string) : Call :=
  GenerateContent {| req_model := fst model_prompt; req_prompt := snd model_prompt;
                     req_json := true |}.

(** [s] holds a markup tag: a [<] that a later [>] closes, which is what the
    pattern [<[^>]*>] finds. *)
Definition has_tag (s : string) : Prop :=
  exists before inner after, s = before ^^ "<" ^^ inner ^^ ">" ^^ after.

(** No [<] of [s] is closed by a later [>]. *)
Definition untagged (s : string) : Prop :=
  forall a b, s = a ^^ String "<" b -> Str.after_gt b = None.

(** The members of [v] named in [names] convert to a primitive, where they
    are there. *)
Definition members_print (names : list string) (v : JSON) : Prop :=
  forall k x, In k names -> get (Some v) k = inr (Some x) -> prints x = true.

(** ** Instances for the examples

    A subtitle reader, an engine and a pair of services to run the program
    on. They stand for the parameters in the examples only; the theorems
    that are not about an example hold for every instance. *)

Module Fixture.
Import TranslationWorkerService Jobs.

(** *** A reader and a printer of SubRip text

    They stand for [fromSrt] and [toSrt] of [srt-parser-2] and work in its
    manner. The reader drops the carriage returns and looks for headings: an
    id (digits), a line feed and a timing line [H:MM:SS,m --> H:MM:SS,m],
    with one or two digits for the hours and one to three after the comma.
    The text of a block is what stands between its heading and the next. A
    file without such a heading is read again with a dot in place of the
    comma. Timestamps are padded to [HH:MM:SS,mmm]; ids and texts are
    trimmed. Each block carries its [startSeconds] and [endSeconds]. Nothing
    makes the reader throw: a text without headings has no blocks. The
    printer ends lines with a carriage return and a line feed. The files of
    the examples are ASCII text. *)

Definition is_digit (c : ascii) : bool :=
  match Num.digit_value c with
  | Some _ => true
  | None => false
  end.

(** The longest prefix of digits, and what follows it. *)
Fixpoint digits (s : string) : string * string :=
  match s with
  | EmptyString => ("", "")
  | String c rest =>
      if is_digit c then let (d, r) := digits rest in (String c d, r) else ("", s)
  end.

(** What follows the prefix [p] of [s], when [s] starts with it. *)
Fixpoint after (p s : string) : option string :=
  match p, s with
  | EmptyString, _ => Some s
  | String a p', String b s' => if Ascii.eqb a b then after p' s' else None
  | String _ _, EmptyString => None
  end.

(** [\d{low,high}] followed by [next]: as many digits as there are, when
    their number is in range. *)
Definition digits_then (low high : nat) (next s : string) : option (string * string) :=
  let (d, r) := digits s in
  if ((low <=? String.length d) && (String.length d <=? high))%nat then
    match after next r with
    | Some r' => Some (d, r')
    | None => None
    end
  else None.

(** [\d{1,2}:\d{2}:\d{2}] and the separator. *)
Definition clock (sep s : string) : option (string * string) :=
  match digits_then 1 2 ":" s with
  | Some (h, s) =>
      match digits_then 2 2 ":" s with
      | Some (m, s) =>
          match digits_then 2 2 sep s with
          | Some (sec, s) => Some (h ^^ ":" ^^ m ^^ ":" ^^ sec ^^ sep, s)
          | None => None
          end
      | None => None
      end
  | None => None
  end.

(** A heading at the start of [s]: the id, the two timestamps as written,
    and what follows. The second timestamp takes up to three digits. *)
Definition heading (sep s : string) : option (string * string * string * string) :=
  let (id, s) := digits s in
  if String.eqb id "" then None else
  match after Str.lf s with
  | Some s =>
      match clock sep s with
      | Some (t1, s) =>
          match digits_then 1 3 " --> " s with
          | Some (ms1, s) =>
              match clock sep s with
              | Some (t2, s) =>
                  let (ms2, s) := digits s in
                  if String.eqb ms2 "" then None
                  else Some (id, t1 ^^ ms1, t2 ^^ String.substring 0 3 ms2,
                             String.substring 3 (String.length ms2) ms2 ^^ s)
              | None => None
              end
          | None => None
          end
      | None => None
      end
  | None => None
  end.

(** [data.split(regex)] without its first element: the headings of [s] from
    left to right, each with the text up to the next. The first component
    is the text before the first heading. *)
Fixpoint headings (sep : string) (fuel : nat) (s : string)
    : string * list (string * string * string * string) :=
  match fuel with
  | O => (s, [])
  | S fuel' =>
      match heading sep s with
      | Some (id, t1, t2, tail) =>
          let (body, more) := headings sep fuel' tail in
          ("", (id, t1, t2, body) :: more)
      | None =>
          match s with
          | EmptyString => ("", [])
          | String c rest =>
              let (body, more) := headings sep fuel' rest in
              (String c body, more)
          end
      end
  end.

(** [data.replace(/\r/g, "")] *)
Fixpoint drop_cr (s : string) : string :=
  match s with
  | EmptyString => EmptyString
  | String c rest =>
      if Ascii.eqb c (ascii_of_nat 13) then drop_cr rest else String c (drop_cr rest)
  end.

Fixpoint zeros (n : nat) : string :=
  match n with
  | O => ""
  | S n' => String "0" (zeros n')
  end.

(** [fixed_str_digit]: [s] cut or padded with zeros to [n] characters. *)
Definition fixed_str_digit (n : nat) (s : string) (padEnd : bool) : string :=
  if (n <=? String.length s)%nat then String.substring 0 n s
  else if padEnd then s ^^ zeros (n - String.length s)
  else zeros (n - String.length s) ^^ s.

(** [time.replace(".", ",")]: the first dot. *)
Fixpoint comma_for_dot (s : string) : string :=
  match s with
  | EmptyString => EmptyString
  | String c rest => if Ascii.eqb c "." then String "," rest else String c (comma_for_dot rest)
  end.

(** [correctFormat]: the timestamp as [HH:MM:SS,mmm]. *)
Definition correctFormat (time : string) : string :=
  let parts := Str.split "," (comma_for_dot time) in
  let front := Str.split ":" (nth 0 parts "") in
  fixed_str_digit 2 (nth 0 front "") false ^^ ":"
  ^^ fixed_str_digit 2 (nth 1 front "") false ^^ ":"
  ^^ fixed_str_digit 2 (nth 2 front "") false ^^ ","
  ^^ fixed_str_digit 3 (nth 1 parts "") true.

Definition field (s : string) : Z :=
  match Num.read_digits None s with
  | Some z => z
  | None => 0
  end.

(** [timestampToSeconds]: [HH:MM:SS,mmm] in seconds, to the millisecond. *)
Definition timestampToSeconds (t : string) : float :=
  let parts := Str.split "," t in
  let front := Str.split ":" (nth 0 parts "") in
  let ms := (field (nth 1 parts "")
             + 1000 * (field (nth 2 front "") + 60 * field (nth 1 front "")
                       + 3600 * field (nth 0 front "")))%Z in
  (Num.of_Z ms / 1000)%float.

Definition read_block (found : string * string * string * string) : SrtEntry :=
  let '(id, t1, t2, body) := found in
  let startTime := correctFormat (Str.trim t1) in
  let endTime := correctFormat (Str.trim t2) in
  {| entry_id := Str.trim id;
     entry_startTime := startTime;
     entry_startSeconds := timestampToSeconds startTime;
     entry_endTime := endTime;
     entry_endSeconds := timestampToSeconds endTime;
     entry_text := Str.trim body |}.

Definition read (data : string) : list SrtEntry :=
  let data := drop_cr data in
  let tryComma := snd (headings "," (S (String.length data)) data) in
  let found :=
    match tryComma with
    | [] => snd (headings "." (S (String.length data)) data)
    | _ => tryComma
    end in
  map read_block found.

Definition crlf : string := String (ascii_of_nat 13) Str.lf.

(** [text.replace("\n", "\r\n")]: the first line feed only. *)
Fixpoint replace_first_lf (s : string) : string :=
  match s with
  | EmptyString => EmptyString
  | String c rest =>
      if Ascii.eqb c Str.lf_char then crlf ^^ rest else String c (replace_first_lf rest)
  end.

Definition print_block (b : SrtBlock) : string :=
  block_id b ^^ crlf ^^ block_startTime b ^^ " --> " ^^ block_endTime b ^^ crlf
  ^^ replace_first_lf (block_text b) ^^ crlf ^^ crlf.

Definition reader : SrtParser :=
  {| fromSrt := fun data => inr (read data);
     toSrt := fun blocks => String.concat "" (map print_block blocks) |}.

(** *** An engine

    [JSON.stringify] without escapes, [JSON.parse] on the texts that the
    services of the examples reply; fractions, numeric strings other than
    digits and characters outside ASCII do not occur in the examples. *)

Definition print_number (n : float) : string :=
  match Num.to_Z n with
  | Some z => Num.decimal z
  | None => "?"
  end.

Fixpoint stringify (v : JSON) : string :=
  match v with
  | JNull => "null"
  | JBool b => if b then "true" else "false"
  | JNum n => print_number n
  | JStr s => q s
  | JArr items => "[" ^^ Str.join "," (map stringify items) ^^ "]"
  | JObj fields =>
      "{" ^^ Str.join "," (map (fun kv => q (fst kv) ^^ ":" ^^ stringify (snd kv)) fields) ^^ "}"
  end.

Definition parse_known (known : list JSON) (s : string) : Thrown + JSON :=
  match find (fun v => String.eqb (stringify v) s) known with
  | Some v => inr v
  | None => inl (SyntaxError "Unexpected token")
  end.

Definition engine_knowing (known : list JSON) : JsEngine :=
  {| JSON_parse := parse_known known;
     JSON_stringify := stringify;
     Number_toString_other := fun _ => "?";
     StringToNumber := fun s =>
       match Num.read_digits None s with
       | Some z => Num.of_Z z
       | None => nan
       end;
     trim_other := Str.trim;
     toUpperCase_other := Str.toUpperCase;
     parseInt_other := Num.parseInt |}.

(** *** The services

    The model answers by the kind of prompt; calls whose number is in
    [faults] fail with [quota]. The index returns, for a query, the first
    [topK] stored records of the job named in the filter. *)

Definition quota : UpstreamFault :=
  {| fault_name := "GoogleGenerativeAIFetchError";
     fault_message := "[429 Too Many Requests] Resource has been exhausted" |}.

Definition faulty (faults : list nat) (n : nat) : bool := existsb (Nat.eqb n) faults.

Definition keywords_reply : JSON :=
  JObj [("keywords", JArr [JObj [("term", JStr "Jedi"); ("definition", JStr "a knight")]])].

Definition grounded_reply : JSON :=
  JObj [("grounded_keywords",
         JArr [JObj [("term", JStr "Jedi"); ("translations", JArr [JStr "A"; JStr "B"; JStr "C"])]])].

Definition answer (blueprint triage : JSON) (req : GenerateRequest) : string :=
  let p := req_prompt req in
  if String.prefix "Analyze the subtitle text." p then stringify keywords_reply
  else if String.prefix "For each English term" p then stringify grounded_reply
  else if String.prefix "Generate a " p then stringify blueprint
  else if String.prefix "You are a linguistic triage agent." p then stringify triage
  else "(" ^^ req_model req ^^ ")".

Definition stored_match (r : VectorRecord) : Match :=
  {| match_id := vec_id r; match_metadata := Some (vec_metadata r) |}.

Definition search (store : list VectorRecord) (req : QueryRequest) : list Match :=
  firstn (q_topK req)
    (map stored_match
       (filter (fun r => String.eqb (md_jobId (vec_metadata r)) (q_filter_jobId req)) store)).

Definition services (faults : list nat) (blueprint triage : JSON) : Upstream :=
  {| generateContent := fun n req =>
       if faulty faults n then inl quota else inr (answer blueprint triage req);
     batchEmbedContents := fun n texts =>
       if faulty faults n then inl quota
       else inr (map (fun t => [Num.of_nat (String.length t)]) texts);
     embedContent := fun n content =>
       if faulty faults n then inl quota else inr [Num.of_nat (String.length content)];
     upsert_fault := fun n _ => if faulty faults n then Some quota else None;
     query := fun n store req =>
       if faulty faults n then inl quota else inr (Some (search store req)) |}.

End Fixture.

(** ** The examples *)

Module Sample.
Import TranslationWorkerService Jobs Fixture.

(** Three blocks; the third ends before it starts. *)
Definition three_lines : string :=
  Str.join Str.lf
    ["1"; "00:00:01,000 --> 00:00:02,500"; "<i>Hello</i> there"; "";
     "2"; "00:00:03,000 --> 00:00:04,000"; "Use the Force"; "";
     "3"; "00:00:05,000 --> 00:00:04,000"; "Bye"].


(** Text that is no subtitle file. *)
Definition plain_text : string := "just text" ^^ Str.lf ^^ "more".

(** The user says Jedi is X; the model's blueprint says B. *)
Definition glossary : list UserGlossaryItem := [{| term := "Jedi"; translation := "X" |}].

Definition blueprint : JSON :=
  JObj [("summary", JStr "A farewell.");
        ("keyPoints", JArr [JStr "parting"]);
        ("characterProfiles",
         JArr [JObj [("personaName", JStr "Obi"); ("speakingStyle", JStr "calm");
                     ("voiceConsistencyRule", JStr "formal")]]);
        ("culturalNuances", JArr []);
        ("glossary", JArr [JObj [("term", JStr "Jedi"); ("proposedTranslation", JStr "B")]])].

Definition classification (id : Z) (model : string) : JSON :=
  JObj [("id", JNum (Num.of_Z id)); ("model", JStr model)].

Definition triage : JSON :=
  JObj [("classifications", JArr [classification 1 "flash"; classification 2 "pro"])].

Definition engine : JsEngine :=
  engine_knowing [keywords_reply; grounded_reply; blueprint; triage].

Definition job : Job :=
  createTranslationJob "42"
    {| sub_subtitleContent := three_lines; sub_tone := "Casual";
       sub_thinkingMode := false; sub_userGlossary := glossary |}.

(** Fifteen lines numbered 1 to 15, and a classification of all but line 7. *)
Definition fifteen : list SrtLine :=
  map (fun i => fallback_line i "Hello there") (seq 0 15).

Definition all_but_seven : list JSON :=
  map (fun i => classification (Z.of_nat i) "pro") [1; 2; 3; 4; 5; 6; 8; 9; 10; 11; 12; 13; 14; 15]%nat.

Definition line_seven : SrtLine := fallback_line 6 "Hello there".

(** The same two texts under different sequence numbers. *)
Definition batch_a : list SrtLine := [fallback_line 0 "Hello"; fallback_line 1 "Bye"].
Definition batch_b : list SrtLine := [fallback_line 15 "Hello"; fallback_line 16 "Bye"].

(** The services without faults, and with the first call failing. *)
Definition healthy : Upstream := services [] blueprint triage.
Definition failing_first : Upstream := services [0] blueprint triage.

(** The services with the embedding call of both attempts failing: calls 3
    and 7, after three model calls each. *)
Definition failing_embeddings : Upstream := services [3; 7] blueprint triage.

(** The index once job 42 was indexed. *)
Definition indexed : World :=
  snd (@indexContent Sample.engine healthy "42"
         (mapi fallback_line ["Hello there"; "Bye"]) empty_world).

End Sample.

(** ** Corner cases *)

Module Corner.
Import TranslationWorkerService Jobs Fixture.

(** Services whose embedding model replies without any embedding. *)
Definition terse : Upstream :=
  {| generateContent := @generateContent Sample.healthy;
     batchEmbedContents := fun _ _ => inr [];
     embedContent := @embedContent Sample.healthy;
     upsert_fault := @upsert_fault Sample.healthy;
     query := @query Sample.healthy |}.

(** A classification with two entries for line 2, and one whose model is
    [true]. *)
Definition twice : list JSON :=
  [Sample.classification 1 "flash"; Sample.classification 2 "pro";
   Sample.classification 2 "flash"].

Definition line_two : SrtLine := fallback_line 1 "Use the Force".

Definition not_a_string : JSON := JObj [("id", JNum (Num.of_Z 1)); ("model", JBool true)].

(** The blueprint of the examples without its [culturalNuances]. *)
Definition bare_blueprint : list (string * JSON) :=
  [("summary", JStr "A farewell.");
   ("keyPoints", JArr [JStr "parting"]);
   ("characterProfiles",
    JArr [JObj [("personaName", JStr "Obi"); ("speakingStyle", JStr "calm");
                ("voiceConsistencyRule", JStr "formal")]]);
   ("glossary", JArr [JObj [("term", JStr "Jedi"); ("proposedTranslation", JStr "B")]])].

End Corner.

(** * Properties *)

(** ** Lists and strings *)

Lemma mapi_from_length {A B} (f : nat -> A -> B) (xs : list A) (from : nat) :
  List.length (mapi_from from f xs) = List.length xs.
Proof.
  revert from; induction xs as [|x xs IH]; intros from; simpl; [reflexivity|].
  now rewrite IH.
Qed.

Lemma mapi_from_nth_error {A B} (f : nat -> A -> B) (xs : list A) (from i : nat) :
  nth_error (mapi_from from f xs) i = option_map (f (from + i)) (nth_error xs i).
Proof.
  revert from i; induction xs as [|x xs IH]; intros from [|i]; simpl; try reflexivity.
  - now rewrite Nat.add_0_r.
  - rewrite IH. now replace (S from + i) with (from + S i) by lia.
Qed.

Lemma mapi_from_Forall {A B} (P : B -> Prop) (f : nat -> A -> B) (xs : list A) (from : nat) :
  (forall i x, P (f i x)) -> Forall P (mapi_from from f xs).
Proof.
  intros Hf; revert from; induction xs as [|x xs IH]; intros from; simpl; constructor; auto.
Qed.

Lemma combine_map_fst {A B} (xs : list A) (ys : list B) :
  List.length ys = List.length xs -> map fst (combine xs ys) = xs.
Proof.
  revert ys; induction xs as [|x xs IH]; intros [|y ys] H; simpl in *; try discriminate; auto.
  f_equal; apply IH; lia.
Qed.

Lemma combine_map_snd {A B} (xs : list A) (ys : list B) :
  List.length ys = List.length xs -> map snd (combine xs ys) = ys.
Proof.
  revert ys; induction xs as [|x xs IH]; intros [|y ys] H; simpl in *; try discriminate; auto.
  f_equal; apply IH; lia.
Qed.

(** ** Numbers: integers below 2^53 are doubles, and print as they were read *)

Lemma digits2_pos_bounds (p : positive) :
  (2 ^ (Z.pos (digits2_pos p) - 1) <= Z.pos p < 2 ^ Z.pos (digits2_pos p))%Z.
Proof.
  induction p as [p IH|p IH|]; cbn [digits2_pos].
  - rewrite Pos2Z.inj_succ. replace (Z.succ (Z.pos (digits2_pos p)) - 1)%Z with (Z.pos (digits2_pos p)) by lia.
    rewrite Z.pow_succ_r by lia.
    assert (H : (2 ^ Z.pos (digits2_pos p) = 2 * 2 ^ (Z.pos (digits2_pos p) - 1))%Z).
    { rewrite <- Z.pow_succ_r by lia. f_equal; lia. }
    lia.
  - rewrite Pos2Z.inj_succ. replace (Z.succ (Z.pos (digits2_pos p)) - 1)%Z with (Z.pos (digits2_pos p)) by lia.
    rewrite Z.pow_succ_r by lia.
    assert (H : (2 ^ Z.pos (digits2_pos p) = 2 * 2 ^ (Z.pos (digits2_pos p) - 1))%Z).
    { rewrite <- Z.pow_succ_r by lia. f_equal; lia. }
    lia.
  - simpl. lia.
Qed.

Lemma iter_xO_digits (p k : positive) :
  digits2_pos (Pos.iter xO p k) = (digits2_pos p + k)%positive.
Proof.
  induction k as [|k IH] using Pos.peano_ind.
  - simpl. lia.
  - rewrite Pos.iter_succ. cbn [digits2_pos]. rewrite IH. lia.
Qed.

Lemma iter_xO_value (p k : positive) :
  Z.pos (Pos.iter xO p k) = (Z.pos p * 2 ^ Z.pos k)%Z.
Proof.
  induction k as [|k IH] using Pos.peano_ind.
  - simpl. lia.
  - rewrite Pos.iter_succ, Pos2Z.inj_xO, IH, Pos2Z.inj_succ, Z.pow_succ_r by lia. lia.
Qed.

Lemma of_Z_exact (p : positive) :
  (Z.pos p < 2 ^ 53)%Z -> Num.to_Z (Num.of_Z (Z.pos p)) = Some (Z.pos p) /\ exists m e, Prim2SF (Num.of_Z (Z.pos p)) = S754_finite false m e.
Proof.
  intros Hp.
  pose proof (digits2_pos_bounds p) as [Hlo Hhi].
  assert (Hd : (Z.pos (digits2_pos p) <= 53)%Z).
  { destruct (Z.le_gt_cases (Z.pos (digits2_pos p)) 53) as [H|H]; [exact H|].
    exfalso. assert (2 ^ 53 <= 2 ^ (Z.pos (digits2_pos p) - 1))%Z by (apply Z.pow_le_mono_r; lia). lia. }
  unfold Num.of_Z, Num.to_Z.
  assert (Hn : exists m e, binary_normalize 53 1024 (Z.pos p) 0 false = S754_finite false m e /\ 
     SpecFloat.valid_binary prec emax (S754_finite false m e) = true /\
     (e <= 0)%Z /\ (Z.pos m = Z.pos p * 2 ^ (- e))%Z).
  { cbn [binary_normalize]. unfold binary_round.
    unfold fexp, emin. 
    replace (Z.max (Z.pos (digits2_pos p) + 0 - 53) (3 - 1024 - 53))%Z with (Z.pos (digits2_pos p) - 53)%Z by lia.
    unfold shl_align.
    destruct (Z.pos (digits2_pos p) - 53 - 0)%Z as [|k|k] eqn:Ek; try lia.
    - exists p, 0%Z. 
      assert (Hd53 : digits2_pos p = 53%positive) by lia.
      unfold binary_round_aux, shr_fexp, fexp, emin, Zdigits2. rewrite Hd53. cbn.
      unfold valid_binary, bounded, canonical_mantissa, fexp, emin. rewrite Hd53. cbn. repeat split; lia.
    - exists (Pos.iter xO p k), (Z.pos (digits2_pos p) - 53)%Z.
      assert (Hdk : (digits2_pos (Pos.iter xO p k)) = 53%positive) by (rewrite iter_xO_digits; lia).
      unfold binary_round_aux, shr_fexp, fexp, emin, Zdigits2. rewrite Hdk.
      replace (Z.max (53 + (Z.pos (digits2_pos p) - 53) - 53) (3 - 1024 - 53) - (Z.pos (digits2_pos p) - 53))%Z with 0%Z by lia.
      cbn [shr shr_record_of_loc round_nearest_even shr_m loc_of_shr_record].
      rewrite Hdk.
      replace (Z.max (53 + (Z.pos (digits2_pos p) - 53) - 53) (3 - 1024 - 53) - (Z.pos (digits2_pos p) - 53))%Z with 0%Z by lia.
      cbn [shr shr_m].
      replace (Z.pos (digits2_pos p) - 53 <=? 1024 - 53)%Z with true by (symmetry; apply Z.leb_le; lia).
      split; [reflexivity|].
      unfold valid_binary, bounded, canonical_mantissa, fexp, emin, prec, emax. rewrite Hdk.
      split; [apply andb_true_intro; split; [apply Z.eqb_eq|apply Z.leb_le]; lia|].
      split; [lia|].
      rewrite iter_xO_value. f_equal. f_equal. lia. }
  destruct Hn as (m & e & Hn & Hv & He & Hm).
  rewrite Hn, (Prim2SF_SF2Prim _ Hv).
  split; [|eauto].
  destruct e as [|e|e]; try lia.
  - simpl in Hm. f_equal. lia.
  - rewrite Hm. simpl Z.opp. rewrite Z.mod_mul, Z.eqb_refl, Z.div_mul by lia. reflexivity.
Qed.

Lemma of_nat_exact (n : nat) :
  (Z.of_nat n < 2 ^ 53)%Z -> Num.to_Z (Num.of_nat n) = Some (Z.of_nat n).
Proof.
  intros Hn. unfold Num.of_nat.
  destruct (Z.of_nat n) as [|p|p] eqn:E; [reflexivity| |lia].
  now apply of_Z_exact.
Qed.






Lemma decimal_is_not_undefined (z : Z) : Num.decimal z <> "undefined".
Proof.
  unfold Num.decimal. destruct z as [|p|p]; cbn [Z.to_int NilZero.string_of_int].
  - discriminate.
  - unfold NilZero.string_of_uint. destruct (Pos.to_uint p); discriminate.
  - discriminate.
Qed.

(** ** The subtitle parser *)




Section ParserProperties.
Import TranslationWorkerService.
Context {engine : JsEngine} {parser : SrtParser}.

Lemma parseSrt_structural (srtContent : string) (entries : list SrtEntry) :
  fromSrt srtContent = inr entries ->
  parseSrt srtContent = inr (map parsed_line entries).
Proof. intros H; unfold parseSrt, attempt, bindE; now rewrite H. Qed.

Lemma parseSrt_fallback (srtContent : string) (error : Thrown) :
  fromSrt srtContent = inl error ->
  parseSrt srtContent = inr (mapi fallback_line (Str.split Str.lf_char srtContent)).
Proof. intros H; unfold parseSrt, attempt, bindE; now rewrite H. Qed.

(** The difference of two members that are not there is NaN, and the
    duration stored for it is 0. *)
Lemma parsed_line_duration (entry : SrtEntry) :
  PrimFloat.is_nan (Num.of_optional (SrtEntry_endTimeSeconds entry)
                    - Num.of_optional (SrtEntry_startTimeSeconds entry)) = true /\
  duration (parsed_line entry) = 0%float.
Proof. split; reflexivity. Qed.

(** [parseSrt] returns for every input. Its lines are those of the blocks
    that [fromSrt] returned, one per block and none when there is no block;
    the lines of the [catch] block, one per segment between line feeds, are
    the result only when [fromSrt] throws. *)
Lemma parseSrt_cases (srtContent : string) :
  (exists lines, parseSrt srtContent = inr lines) /\
  (forall entries, fromSrt srtContent = inr entries ->
     parseSrt srtContent = inr (map parsed_line entries)) /\
  (forall error, fromSrt srtContent = inl error ->
     parseSrt srtContent = inr (mapi fallback_line (Str.split Str.lf_char srtContent))).
Proof.
  split; [|split].
  - destruct (fromSrt srtContent) as [error|entries] eqn:E.
    + eexists; now apply parseSrt_fallback with (error := error).
    + eexists; apply parseSrt_structural; eassumption.
  - apply parseSrt_structural.
  - apply parseSrt_fallback.
Qed.

(** C3, on the code. The duration of a parsed line is computed from
    [line.endTimeSeconds] and [line.startTimeSeconds], members that the
    lines of the library do not have: the difference is NaN for every block,
    whatever its [startSeconds] and [endSeconds], and the duration stored is
    0. So every line that [parseSrt] produces has duration 0, the lines of
    the [catch] block included: no duration is negative or NaN, and none is
    end minus start. *)
Theorem parseSrt_durations_are_zero (srtContent : string) :
  exists lines,
    parseSrt srtContent = inr lines /\
    Forall (fun l => duration l = 0%float /\ PrimFloat.leb 0 (duration l) = true) lines /\
    (forall entries, fromSrt srtContent = inr entries ->
       lines = map parsed_line entries /\
       Forall (fun e =>
                 PrimFloat.is_nan (Num.of_optional (SrtEntry_endTimeSeconds e)
                                   - Num.of_optional (SrtEntry_startTimeSeconds e)) = true)
              entries).
Proof.
  destruct (fromSrt srtContent) as [error|entries] eqn:E.
  - exists (mapi fallback_line (Str.split Str.lf_char srtContent)).
    split; [now apply parseSrt_fallback with (error := error)|].
    split; [apply mapi_from_Forall; intros; split; reflexivity|].
    intros entries H; discriminate.
  - exists (map parsed_line entries).
    split; [now apply parseSrt_structural|].
    split.
    + apply Forall_map, Forall_forall. intros e _. split; reflexivity.
    + intros entries' H; injection H as <-. split; [reflexivity|].
      apply Forall_forall. intros e _. apply parsed_line_duration.
Qed.



End ParserProperties.

(** ** Computations, step by step *)

Lemma bind_returns {A B} (m : M A) (k : A -> M B) (w w' : World) (b : B) :
  bind m k w = (inr b, w') ->
  exists a w1, m w = (inr a, w1) /\ k a w1 = (inr b, w').
Proof.
  unfold bind; destruct (m w) as [[e|a] w1]; intros H; [discriminate|eauto].
Qed.

Lemma lift_returns {A} (r : Thrown + A) (w w' : World) (a : A) :
  lift r w = (inr a, w') -> r = inr a /\ w' = w.
Proof. unfold lift; intros H; injection H as -> ->; auto. Qed.

(** ** Triage *)

Section TriageProperties.
Import TranslationWorkerService.
Context {engine : JsEngine} {parser : SrtParser} {upstream : Upstream}.

Lemma find_id_none (items : list JSON) (sequence : float) :
  Forall (fun t => id_is t sequence = inr false) items ->
  find_id items sequence = inr None.
Proof.
  induction 1 as [|t items Ht _ IH]; simpl; [reflexivity|].
  now rewrite Ht.
Qed.

Lemma id_is_false (t : JSON) (sequence : float) :
  t <> JNull -> id_is t sequence <> inr true -> id_is t sequence = inr false.
Proof.
  intros Hnull Hid. unfold id_is in *.
  destruct t; try contradiction; cbn [get bindE] in *;
    match goal with
    | |- inr ?b = inr false => destruct b; [contradiction|reflexivity]
    end.
Qed.

Lemma triage_row_is_undefined (l : SrtLine) :
  triage_row l = "undefined | " ^^ text l.
Proof. reflexivity. Qed.

Lemma Number_toString_is_not_undefined (n : float) :
  (forall m, Number_toString_other m <> "undefined") -> Number_toString n <> "undefined".
Proof.
  intros Hother. unfold Number_toString.
  destruct (Prim2SF n) as [s|s| |s m e]; try discriminate.
  - destruct (Num.to_Z n) as [z|]; [|apply Hother].
    destruct (Z.abs z <=? 2 ^ 53)%Z; [apply decimal_is_not_undefined|apply Hother].
  - now destruct s.
  - destruct (Num.to_Z n) as [z|]; [|apply Hother].
    destruct (Z.abs z <=? 2 ^ 53)%Z; [apply decimal_is_not_undefined|apply Hother].
Qed.

Lemma Number_toString_integer (n : float) (z : Z) :
  Num.to_Z n = Some z -> (Z.abs z <= 2 ^ 53)%Z -> Number_toString n = Num.decimal z.
Proof.
  unfold Number_toString, Num.to_Z. intros Hz Hsmall.
  destruct (Prim2SF n) as [s|s| |s m e]; try discriminate.
  - injection Hz as <-. reflexivity.
  - rewrite Hz. now replace (Z.abs z <=? 2 ^ 53)%Z with true by (symmetry; now apply Z.leb_le).
Qed.

End TriageProperties.

(** ** The gateway *)

Section GatewayProperties.
Import TranslationWorkerService.
Context {engine : JsEngine} {parser : SrtParser} {upstream : Upstream}.


(** What [runJsonTool] throws is the one error of the source. *)
Lemma runJsonTool_throws (modelName prompt : string) (w w' : World) (e : Thrown) :
  runJsonTool modelName prompt w = (inl e, w') -> e = Error json_tool_failure.
Proof.
  unfold runJsonTool, try_catch, bind, call_generateContent, lift, print, throw; simpl.
  destruct (generateContent _ _) as [f|reply]; simpl.
  - intros H; now injection H as <- _.
  - destruct (JSON_parse reply) as [e'|v']; simpl; intros H; [now injection H as <- _|discriminate].
Qed.

(** What [runTextGen] throws is the one error of the source. *)
Lemma runTextGen_throws (modelName prompt : string) (w w' : World) (e : Thrown) :
  runTextGen modelName prompt w = (inl e, w') -> e = Error text_gen_failure.
Proof.
  unfold runTextGen, try_catch, bind, call_generateContent, print, throw; simpl.
  destruct (generateContent _ _) as [f|reply]; simpl; intros H; [now injection H as <- _|discriminate].
Qed.

(** C4, on the code. When [batchEmbedContents] fails, [indexContent] throws
    the fault of the provider as it arrived: nothing wraps it, whereas
    [runJsonTool] and [runTextGen] throw their own error. *)
Theorem embedding_fault_reaches_the_caller (jobId : string) (lines : list SrtLine)
    (w : World) (fault : UpstreamFault) :
  batchEmbedContents (List.length (calls w)) (map text lines) = inl fault ->
  fst (indexContent jobId lines w) = inl (UpstreamError fault) /\
  (forall modelName prompt e, fst (runJsonTool modelName prompt w) = inl e ->
     e = Error json_tool_failure) /\
  (forall modelName prompt e, fst (runTextGen modelName prompt w) = inl e ->
     e = Error text_gen_failure).
Proof.
  intros Hfault; split; [|split].
  - unfold indexContent, bind, call_batchEmbedContents; simpl. now rewrite Hfault.
  - intros modelName prompt e H.
    destruct (runJsonTool modelName prompt w) as [r w'] eqn:E; simpl in H; subst r.
    now apply runJsonTool_throws in E.
  - intros modelName prompt e H.
    destruct (runTextGen modelName prompt w) as [r w'] eqn:E; simpl in H; subst r.
    now apply runTextGen_throws in E.
Qed.

Lemma bind_inr {A B} (m : M A) (k : A -> M B) (w w1 : World) (a : A) :
  m w = (inr a, w1) -> bind m k w = k a w1.
Proof. intros H; unfold bind; now rewrite H. Qed.

Lemma bind_inl {A B} (m : M A) (k : A -> M B) (w w1 : World) (e : Thrown) :
  m w = (inl e, w1) -> bind m k w = (inl e, w1).
Proof. intros H; unfold bind; now rewrite H. Qed.





End GatewayProperties.

(** ** The context memory store *)

Section MemoryProperties.
Import TranslationWorkerService.
Context {engine : JsEngine} {parser : SrtParser} {upstream : Upstream}.

Lemma context_of_no_matches (matches : option (list Match)) :
  matches = None \/ matches = Some [] -> context_of matches = no_context.
Proof. intros [-> | ->]; reflexivity. Qed.

(** C9. The only calls [queryContext] adds to the log are one embedding and
    then at most one query, and that query carries the job id as its filter.
    When the search returns no matches (an empty list, or none at all), the
    result is the sentinel and nothing is thrown; that is the case for a job
    that was never indexed, on a service that applies the filter. *)
Theorem queryContext_is_scoped_to_the_job (jobId content : string) (topK : nat)
    (w : World) (vector : list float) (matches : option (list Match)) :
  let request := {| q_vector := vector; q_topK := topK; q_filter_jobId := jobId |} in
  embedContent (List.length (calls w)) content = inr vector ->
  query (S (List.length (calls w))) (vectorIndex w) request = inr matches ->
  calls (snd (queryContext jobId content topK w)) =
    calls w ++ [EmbedContent embeddingModelName content; Query request] /\
  (forall req, In (Query req) (calls (snd (queryContext jobId content topK w))) ->
     In (Query req) (calls w) \/ q_filter_jobId req = jobId) /\
  fst (queryContext jobId content topK w) = inr (context_of matches) /\
  (matches = None \/ matches = Some [] ->
     fst (queryContext jobId content topK w) = inr no_context) /\
  (honours_filter upstream -> never_indexed jobId (vectorIndex w) ->
     fst (queryContext jobId content topK w) = inr no_context).
Proof.
  intros request Hembed Hquery.
  assert (Hrun : queryContext jobId content topK w =
                 (inr (context_of matches),
                  log_call (Query request) (log_call (EmbedContent embeddingModelName content) w))).
  { unfold queryContext, bind, call_embedContent, call_query, ret; simpl.
    rewrite Hembed; simpl. rewrite length_app, Nat.add_comm; simpl.
    fold request. now rewrite Hquery. }
  rewrite Hrun; simpl.
  split; [now rewrite <- app_assoc|].
  split.
  { intros req Hin. rewrite <- app_assoc in Hin. apply in_app_or in Hin as [Hin|Hin]; [now left|].
    right. destruct Hin as [Hin|[Hin|[]]]; [discriminate|]. now injection Hin as <-. }
  split; [reflexivity|].
  split; [intros H; now rewrite (context_of_no_matches _ H)|].
  intros Hfilter Hnever.
  destruct matches as [[|m ms]|]; try reflexivity.
  exfalso.
  destruct (Hfilter _ _ _ _ m Hquery (or_introl eq_refl)) as (r & Hin & _ & Hjob).
  unfold never_indexed in Hnever. rewrite Forall_forall in Hnever.
  now apply (Hnever r Hin).
Qed.

(** Every call of [queryContext], whatever the services answer, sends its
    query under the job id. *)
Lemma queryContext_filter (jobId content : string) (topK : nat) (w : World) (req : QueryRequest) :
  In (Query req) (calls (snd (queryContext jobId content topK w))) ->
  In (Query req) (calls w) \/ q_filter_jobId req = jobId.
Proof.
  unfold queryContext, bind, call_embedContent, call_query, ret; simpl.
  destruct (embedContent _ _) as [f|vector]; simpl.
  - intros Hin; apply in_app_or in Hin as [Hin|[Hin|[]]]; [now left|discriminate].
  - destruct (query _ _ _) as [f|matches]; simpl; intros Hin;
      rewrite <- app_assoc in Hin; apply in_app_or in Hin as [Hin|[Hin|[Hin|[]]]];
      try (now left); try discriminate; right; now injection Hin as <-.
Qed.

End MemoryProperties.

(** ** A logic of steps *)

Section Steps.
Context {R : World -> World -> Prop} {R_preorder : PreOrder R}.

Lemma keeps_ret {A} (a : A) : keeps R (ret a).
Proof. intros w; simpl; reflexivity. Qed.

Lemma keeps_throw {A} (e : Thrown) : keeps R (@throw A e).
Proof. intros w; simpl; reflexivity. Qed.

Lemma keeps_lift {A} (r : Thrown + A) : keeps R (lift r).
Proof. intros w; simpl; reflexivity. Qed.

Lemma keeps_bind {A B} (m : M A) (k : A -> M B) :
  keeps R m -> (forall a, keeps R (k a)) -> keeps R (bind m k).
Proof.
  intros Hm Hk w. unfold bind.
  specialize (Hm w). destruct (m w) as [[e|a] w1]; simpl in *; [exact Hm|].
  etransitivity; [exact Hm|apply Hk].
Qed.

Lemma keeps_try_catch {A} (body : M A) (handler : Thrown -> M A) :
  keeps R body -> (forall e, keeps R (handler e)) -> keeps R (try_catch body handler).
Proof.
  intros Hm Hk w. unfold try_catch.
  specialize (Hm w). destruct (body w) as [[e|a] w1]; simpl in *; [|exact Hm].
  etransitivity; [exact Hm|apply Hk].
Qed.

Lemma keeps_for_each {A B} (body : A -> M B) (xs : list A) :
  (forall x, keeps R (body x)) -> keeps R (for_each body xs).
Proof.
  intros Hbody; induction xs as [|x xs IH]; simpl.
  - apply keeps_ret.
  - apply keeps_bind; [apply Hbody|intros y].
    apply keeps_bind; [exact IH|intros ys; apply keeps_ret].
Qed.

End Steps.

Ltac keeps_steps :=
  repeat first
    [ apply keeps_ret | apply keeps_throw | apply keeps_lift
    | apply keeps_bind; [|intros ?]
    | apply keeps_try_catch; [|intros ?]
    | apply keeps_for_each; intros ?
    | assumption
    | match goal with
      | |- keeps _ (if ?b then _ else _) => destruct b
      | |- keeps _ (match ?x with _ => _ end) => destruct x
      | H : forall s, keeps _ (?f s) |- keeps _ (?f _) => apply H
      end ].

#[export] Instance inside_preorder (P : string * ProgressEvent -> Prop) (jid : string) :
  PreOrder (inside P jid).
Proof.
  split.
  - intros w; split; [exists []; rewrite app_nil_r; auto..|apply incl_refl].
  - intros a b c [(n1 & E1 & F1) (m1 & C1 & G1) I1] [(n2 & E2 & F2) (m2 & C2 & G2) I2]; split.
    + exists (n1 ++ n2); rewrite E2, E1, app_assoc; split; [reflexivity|now apply Forall_app].
    + exists (m1 ++ m2); rewrite C2, C1, app_assoc; split; [reflexivity|now apply Forall_app].
    + eapply incl_tran; eassumption.
Qed.

Section Inside.
Variable P : string * ProgressEvent -> Prop.
Variable jid : string.

Lemma inside_emit (e : ProgressEvent) :
  P (jid, e) -> keeps (inside P jid) (emit jid e).
Proof.
  intros He w; split; simpl.
  - exists [(jid, e)]; split; [reflexivity|repeat constructor; exact He].
  - exists []; rewrite app_nil_r; auto.
  - apply incl_refl.
Qed.

Lemma inside_updateProgress (stage : string) : keeps (inside P jid) (updateProgress jid stage).
Proof.
  intros w; split; simpl; [exists []; rewrite app_nil_r; auto..|apply incl_refl].
Qed.

Lemma inside_print (l : ConsoleLine) : keeps (inside P jid) (print l).
Proof.
  intros w; split; simpl; [exists []; rewrite app_nil_r; auto..|apply incl_refl].
Qed.

Lemma inside_log_call (c : Call) (w : World) :
  scoped jid c -> inside P jid w (log_call c w).
Proof.
  intros Hc; split; simpl.
  - exists []; rewrite app_nil_r; auto.
  - exists [c]; auto.
  - apply incl_refl.
Qed.

Lemma put_keeps_ids (v : VectorRecord) (store : list VectorRecord) :
  incl (map vec_id store) (map vec_id (put v store)).
Proof.
  intros id Hin. apply in_map_iff in Hin as (r & <- & Hr).
  unfold put. rewrite map_app. apply in_or_app.
  destruct (String.eqb (vec_id r) (vec_id v)) eqn:E.
  - right. apply String.eqb_eq in E. left. now symmetry.
  - left. apply in_map. apply filter_In. split; [assumption|now rewrite E].
Qed.

Lemma store_upsert_keeps_ids (vectors store : list VectorRecord) :
  incl (map vec_id store) (map vec_id (store_upsert vectors store)).
Proof.
  unfold store_upsert. revert store; induction vectors as [|v vs IH]; intros store; simpl.
  - apply incl_refl.
  - eapply incl_tran; [apply put_keeps_ids|apply IH].
Qed.

Context {engine : JsEngine} {parser : SrtParser} {upstream : Upstream}.
Import TranslationWorkerService Jobs.

Lemma inside_generateContent (req : GenerateRequest) :
  keeps (inside P jid) (call_generateContent req).
Proof. intros w; now apply inside_log_call. Qed.

Lemma inside_batchEmbedContents (model : string) (texts : list string) :
  keeps (inside P jid) (call_batchEmbedContents model texts).
Proof. intros w; now apply inside_log_call. Qed.

Lemma inside_embedContent (model content : string) :
  keeps (inside P jid) (call_embedContent model content).
Proof. intros w; now apply inside_log_call. Qed.

Lemma inside_query (req : QueryRequest) :
  q_filter_jobId req = jid -> keeps (inside P jid) (call_query req).
Proof. intros Hreq w; now apply inside_log_call. Qed.

Lemma inside_upsert (vectors : list VectorRecord) :
  keeps (inside P jid) (call_upsert vectors).
Proof.
  intros w; unfold call_upsert.
  destruct (upsert_fault _ _); [now apply inside_log_call|].
  split; simpl.
  - exists []; rewrite app_nil_r; auto.
  - exists [Upsert vectors]; split; [reflexivity|repeat constructor].
  - apply store_upsert_keeps_ids.
Qed.

Lemma inside_updateStage (stage : string) :
  P (jid, progress stage) -> keeps (inside P jid) (updateStage jid stage).
Proof.
  intros HP. unfold updateStage. apply keeps_bind; [apply inside_updateProgress|intros _].
  now apply inside_emit.
Qed.

Create HintDb inside.

#[local] Hint Resolve inside_generateContent inside_batchEmbedContents inside_embedContent
  inside_upsert inside_print inside_updateProgress : inside.

Lemma inside_runJsonTool (modelName prompt : string) :
  keeps (inside P jid) (runJsonTool modelName prompt).
Proof. unfold runJsonTool; keeps_steps; auto with inside. Qed.

Lemma inside_runTextGen (modelName prompt : string) :
  keeps (inside P jid) (runTextGen modelName prompt).
Proof. unfold runTextGen; keeps_steps; auto with inside. Qed.

Lemma inside_queryContext (content : string) (topK : nat) :
  keeps (inside P jid) (queryContext jid content topK).
Proof. unfold queryContext; keeps_steps; auto with inside. now apply inside_query. Qed.

Lemma inside_indexContent (lines : list SrtLine) :
  keeps (inside P jid) (indexContent jid lines).
Proof. unfold indexContent; keeps_steps; auto with inside. Qed.

Lemma inside_cleanupIndex : keeps (inside P jid) (cleanupIndex jid).
Proof. unfold cleanupIndex; auto with inside. Qed.

#[local] Hint Resolve inside_runJsonTool inside_runTextGen inside_queryContext inside_indexContent
  inside_cleanupIndex : inside.

Lemma inside_generateBlueprint (subtitleContent tone : string)
    (userGlossary : list UserGlossaryItem) (report : string -> M unit) :
  (forall stage, keeps (inside P jid) (report stage)) ->
  keeps (inside P jid) (generateBlueprint subtitleContent tone userGlossary report).
Proof. intros Hreport; unfold generateBlueprint; keeps_steps; auto with inside. Qed.

Lemma inside_executeTranslation (subtitleContent tone translationBrief : string)
    (report : string -> M unit) :
  (forall stage, keeps (inside P jid) (report stage)) ->
  keeps (inside P jid) (executeTranslation jid subtitleContent tone translationBrief report).
Proof.
  intros Hreport; unfold executeTranslation, translateBatch, triageBatch, translateLine.
  keeps_steps; auto with inside. now apply inside_query.
Qed.

End Inside.

(** ** After the index was built *)

#[export] Instance same_index_preorder : PreOrder same_index.
Proof.
  split.
  - intros w; reflexivity.
  - intros a b c Hab Hbc; unfold same_index in *; congruence.
Qed.

Lemma keeps_at {R : World -> World -> Prop} {A} (m : M A) (w w' : World) (r : Thrown + A) :
  keeps R m -> m w = (r, w') -> R w w'.
Proof. intros Hm E. specialize (Hm w). now rewrite E in Hm. Qed.

Section SameIndex.
Import TranslationWorkerService Jobs.
Context {engine : JsEngine} {parser : SrtParser} {upstream : Upstream}.

Lemma same_index_updateStage (jid stage : string) : keeps same_index (updateStage jid stage).
Proof. intros w; reflexivity. Qed.

Lemma same_index_print (l : ConsoleLine) : keeps same_index (print l).
Proof. intros w; reflexivity. Qed.

Lemma same_index_generateContent (req : GenerateRequest) :
  keeps same_index (call_generateContent req).
Proof. intros w; reflexivity. Qed.

Lemma same_index_embedContent (model content : string) :
  keeps same_index (call_embedContent model content).
Proof. intros w; reflexivity. Qed.

Lemma same_index_query (req : QueryRequest) : keeps same_index (call_query req).
Proof. intros w; reflexivity. Qed.

Lemma same_index_cleanupIndex (jid : string) : keeps same_index (cleanupIndex jid).
Proof. intros w; reflexivity. Qed.

Create HintDb same_index.

#[local] Hint Resolve same_index_updateStage same_index_print same_index_generateContent
  same_index_embedContent same_index_query same_index_cleanupIndex : same_index.

(** Triage and translation of a batch leave the index alone. *)
Lemma same_index_translateBatch (jid tone translationBrief : string) (total i : nat)
    (batch : list SrtLine) :
  keeps same_index
    (translateBatch jid tone translationBrief (updateStage jid) total i batch).
Proof.
  unfold translateBatch, triageBatch, translateLine, queryContext, runJsonTool, runTextGen.
  keeps_steps; auto with same_index; intros w; reflexivity.
Qed.

(** C10, on the code. When [executeTranslation] returns, the cleanup step
    has run and the vector index is exactly what [indexContent] left: the
    vectors of the job are all still there. [cleanupIndex] itself writes one
    line to the console, calls no service and cannot throw. *)
Theorem translation_keeps_what_it_indexed (jid subtitleContent tone translationBrief : string)
    (w w' : World) (result : string) :
  executeTranslation jid subtitleContent tone translationBrief (updateStage jid) w
    = (inr result, w') ->
  (exists lines indexed,
     parseSrt subtitleContent = inr lines /\
     indexContent jid lines
       (snd (updateStage jid "Indexing script for long-term memory..." w)) = (inr tt, indexed) /\
     vectorIndex w' = vectorIndex indexed /\
     In (console_log ("Cleanup for job " ^^ jid ^^ " would be performed here.")) (console w')) /\
  (forall w0,
     cleanupIndex jid w0 =
       (inr tt,
        {| bus := bus w0; jobProgress := jobProgress w0;
           console := console w0
                      ++ [console_log ("Cleanup for job " ^^ jid ^^ " would be performed here.")];
           vectorIndex := vectorIndex w0; calls := calls w0 |})).
Proof.
  intros H. split; [|reflexivity].
  unfold executeTranslation in H.
  apply bind_returns in H as (lines & w0 & Hparse & H).
  apply lift_returns in Hparse as (Hparse & ->).
  apply bind_returns in H as ([] & w1 & Hstage & H).
  apply bind_returns in H as ([] & indexed & Hindex & H).
  apply bind_returns in H as (translated & w3 & Hbatches & H).
  apply bind_returns in H as ([] & w4 & Hstage' & H).
  apply bind_returns in H as ([] & w5 & Hcleanup & H).
  injection H as _ <-.
  exists lines, indexed. split; [exact Hparse|]. split; [now rewrite Hstage|].
  assert (H23 : same_index indexed w3).
  { refine (keeps_at _ _ _ _ _ Hbatches). apply keeps_for_each; intros [i batch].
    apply same_index_translateBatch. }
  assert (H34 : same_index w3 w4) by (exact (keeps_at _ _ _ _ (same_index_updateStage _ _) Hstage')).
  assert (H45 : same_index w4 w5) by (exact (keeps_at _ _ _ _ (same_index_cleanupIndex _) Hcleanup)).
  split.
  - unfold same_index in *; congruence.
  - unfold cleanupIndex, print in Hcleanup. injection Hcleanup as <-. simpl.
    apply in_or_app; right; now left.
Qed.

End SameIndex.

(** ** The attempts of a job *)

Section Attempts.
Import TranslationWorkerService Jobs.
Context {engine : JsEngine} {parser : SrtParser} {upstream : Upstream}.

Lemma quiet_updateStage (jid stage : string) : keeps (inside quiet jid) (updateStage jid stage).
Proof. now apply inside_updateStage. Qed.

Lemma try_block_bind {A} (jid : string) (m : M A) (k : A -> M string) :
  keeps (inside quiet jid) m ->
  (forall a w, try_block_ends jid w (fst (k a w)) (snd (k a w))) ->
  forall w, try_block_ends jid w (fst (bind m k w)) (snd (bind m k w)).
Proof.
  intros Hm Hk w. unfold bind.
  destruct (Hm w) as [(new & Hbus & Hquiet) _ _].
  destruct (m w) as [[e|a] w1]; simpl in *.
  - exists new; split; [assumption|]. now rewrite app_nil_r.
  - destruct (Hk a w1) as (new' & Hquiet' & Hbus').
    exists (new ++ new'); split; [now apply Forall_app|].
    now rewrite Hbus', Hbus, <- !app_assoc.
Qed.

Lemma terminal_events_app (jid : string) (a b : list (string * ProgressEvent)) :
  terminal_events jid (a ++ b) = terminal_events jid a ++ terminal_events jid b.
Proof. unfold terminal_events. now rewrite filter_app, map_app. Qed.

Lemma terminal_events_quiet (jid : string) (new : list (string * ProgressEvent)) :
  Forall quiet new -> terminal_events jid new = [].
Proof.
  unfold terminal_events, quiet.
  induction 1 as [|p new Hp _ IH]; simpl; [reflexivity|].
  now rewrite Hp, andb_false_r.
Qed.

Lemma terminal_events_one (jid : string) (r : Thrown + string) :
  terminal_events jid [(jid, terminal_of r)] = [terminal_of r].
Proof.
  unfold terminal_events; simpl. rewrite String.eqb_refl. now destruct r.
Qed.

(** One attempt publishes events that are not terminal and then exactly one
    terminal event: [completed] when it returns, [failed] when it throws. *)
Lemma processor_publishes_one_terminal_event (job : Job) (w : World) :
  exists new,
    Forall quiet new /\
    bus (snd (processor job w)) =
      bus w ++ new ++ [(jobId (job_data job), terminal_of (fst (processor job w)))].
Proof.
  unfold processor.
  lazymatch goal with
  | |- context [try_catch ?body ?handler] =>
      assert (Hbody : forall w0, try_block_ends (jobId (job_data job)) w0
                                   (fst (body w0)) (snd (body w0)))
  end.
  { apply try_block_bind; [apply quiet_updateStage|intros _].
    apply try_block_bind;
      [apply inside_generateBlueprint; intros; apply quiet_updateStage|intros blueprint].
    apply try_block_bind; [apply keeps_lift|intros translationBrief].
    apply try_block_bind; [now apply inside_emit|intros _].
    apply try_block_bind; [apply quiet_updateStage|intros _].
    apply try_block_bind;
      [apply inside_executeTranslation; intros; apply quiet_updateStage|intros finalTranslation].
    intros w0; exists []; split; [constructor|reflexivity]. }
  unfold try_catch. specialize (Hbody w).
  lazymatch goal with
  | |- context [match ?body w with _ => _ end] => destruct (body w) as [[e|result] w1]
  end; destruct Hbody as (new & Hquiet & Hbus); simpl in *; exists new; (split; [assumption|]).
  - unfold bind, emit, throw; simpl. now rewrite Hbus, app_nil_r, <- app_assoc.
  - exact Hbus.
Qed.

Lemma run_attempts_S (later : nat) (job : Job) (w : World) :
  run_attempts (S later) job w =
  match processor job w with
  | (inr result, w1) => (inr (returned result), w1)
  | (inl e, w1) =>
      match later with
      | O => (inr (exhausted (message_of e)), w1)
      | S _ => run_attempts later job w1
      end
  end.
Proof.
  cbn [run_attempts]; unfold try_catch, bind.
  destruct (processor job w) as [[e|result] w1]; [destruct later|]; reflexivity.
Qed.

(** The terminal events of a job that the queue worked off: one [failed] for
    each attempt that threw and was run again, and then the terminal event
    of the last attempt. *)
Lemma run_attempts_terminal_events (remaining : nat) (job : Job) (w : World) :
  exists errors last,
    terminal_events (jobId (job_data job)) (bus (snd (run_attempts (S remaining) job w))) =
      terminal_events (jobId (job_data job)) (bus w) ++ map failed errors ++ [last] /\
    List.length errors <= remaining /\
    match fst (run_attempts (S remaining) job w) with
    | inr (returned result) => last = completed result
    | inr (exhausted reason) => last = failed reason /\ List.length errors = remaining
    | inl _ => False
    end.
Proof.
  revert w; induction remaining as [|later IH]; intros w; rewrite run_attempts_S;
    destruct (processor_publishes_one_terminal_event job w) as (new & Hquiet & Hbus);
    destruct (processor job w) as [[e|result] w1]; simpl in Hbus.
  - exists [], (failed (message_of e)); simpl.
    rewrite Hbus, !terminal_events_app, (terminal_events_quiet _ _ Hquiet).
    rewrite (terminal_events_one _ (inl e)); auto.
  - exists [], (completed result); simpl.
    rewrite Hbus, !terminal_events_app, (terminal_events_quiet _ _ Hquiet).
    rewrite (terminal_events_one _ (inr result)); auto.
  - destruct (IH w1) as (errors & last & Hevents & Hlen & Hlast).
    exists (message_of e :: errors), last.
    rewrite Hevents, Hbus, !terminal_events_app, (terminal_events_quiet _ _ Hquiet).
    rewrite (terminal_events_one _ (inl e)); cbn [map List.length terminal_of].
    split; [now rewrite <- !app_assoc|]. split; [lia|].
    destruct (fst (run_attempts (S later) job w1)) as [e'|[result|reason]];
      [destruct Hlast|exact Hlast|destruct Hlast; split; [assumption|lia]].
  - exists [], (completed result); simpl.
    rewrite Hbus, !terminal_events_app, (terminal_events_quiet _ _ Hquiet).
    rewrite (terminal_events_one _ (inr result)); split; auto. split; [lia|reflexivity].
Qed.

(** A job publishes as many terminal events as attempts were made: one when
    the first attempt returns, and one more for every attempt that threw
    before. With the options of [createTranslationJob] that is one or two. *)
Theorem job_publishes_one_terminal_event_per_attempt (id : string) (data : Submission)
    (w : World) :
  let job := createTranslationJob id data in
  exists errors last,
    terminal_events id (bus (snd (work job w))) =
      terminal_events id (bus w) ++ map failed errors ++ [last] /\
    List.length errors <= 1 /\
    match fst (work job w) with
    | inr (returned result) => last = completed result
    | inr (exhausted reason) => last = failed reason /\ List.length errors = 1
    | inl _ => False
    end.
Proof. intros job. exact (run_attempts_terminal_events 1 job w). Qed.

Lemma any_updateStage (jid stage : string) : keeps (inside any_event jid) (updateStage jid stage).
Proof. now apply inside_updateStage. Qed.

Lemma inside_processor (job : Job) :
  keeps (inside any_event (jobId (job_data job))) (processor job).
Proof.
  unfold processor.
  apply keeps_try_catch.
  - apply keeps_bind; [apply any_updateStage|intros _].
    apply keeps_bind;
      [apply inside_generateBlueprint; intros; apply any_updateStage|intros blueprint].
    apply keeps_bind; [apply keeps_lift|intros translationBrief].
    apply keeps_bind; [now apply inside_emit|intros _].
    apply keeps_bind; [apply any_updateStage|intros _].
    apply keeps_bind;
      [apply inside_executeTranslation; intros; apply any_updateStage|intros finalTranslation].
    apply keeps_bind; [now apply inside_emit|intros _; apply keeps_ret].
  - intros e. apply keeps_bind; [now apply inside_emit|intros _; apply keeps_throw].
Qed.

Lemma inside_work (job : Job) :
  keeps (inside any_event (jobId (job_data job))) (work job).
Proof.
  unfold work. generalize (Nat.max 1 (attempts (job_opts job))) as n.
  induction n as [|later IH]; cbn [run_attempts]; [apply keeps_ret|].
  apply keeps_try_catch.
  - apply keeps_bind; [apply inside_processor|intros result; apply keeps_ret].
  - intros e. destruct later; [apply keeps_ret|exact IH].
Qed.

(** Over all the attempts of a job, every query sent to the vector index is
    filtered by the id of the job. *)
Theorem every_query_of_a_job_is_filtered (job : Job) (w : World) :
  exists new,
    calls (snd (work job w)) = calls w ++ new /\
    Forall (scoped (jobId (job_data job))) new.
Proof. destruct (inside_work job w) as [_ Hcalls _]. exact Hcalls. Qed.

(** Over all the attempts of a job, no vector id leaves the index: nothing
    deletes. *)
Theorem no_vector_leaves_the_index (job : Job) (w : World) :
  incl (map vec_id (vectorIndex w)) (map vec_id (vectorIndex (snd (work job w)))).
Proof. destruct (inside_work job w) as [_ _ Hids]. exact Hids. Qed.

End Attempts.

(** ** The examples, run *)

Section Examples.
Import TranslationWorkerService Jobs Fixture.

Local Existing Instance Sample.engine.
Local Existing Instance reader.

(** C1, on the code. The first attempt of the job fails in its first model
    call and publishes [failed]; the queue runs the job again, the second
    attempt returns and publishes [completed]: two terminal events for one
    job. *)
Theorem retried_job_publishes_failed_then_completed :
  exists result w',
    work (upstream := Sample.failing_first) Sample.job empty_world = (inr (returned result), w') /\
    terminal_events "42" (bus w') = [failed json_tool_failure; completed result].
Proof. eexists; eexists; split; vm_compute; reflexivity. Qed.



(** C3, at the example: the first block lasts from second 1 to second 2.5,
    the third from second 5 to second 4, and every line has duration 0. *)
Lemma durations_of_the_example_are_zero :
  exists entries lines,
    fromSrt Sample.three_lines = inr entries /\
    map (fun e => PrimFloat.eqb (entry_endSeconds e - entry_startSeconds e) 1.5) entries
      = [true; false; false] /\
    map (fun e => PrimFloat.eqb (entry_endSeconds e - entry_startSeconds e) (-1)) entries
      = [false; false; true] /\
    parseSrt Sample.three_lines = inr lines /\
    map duration lines = [0%float; 0%float; 0%float].
Proof. eexists; eexists; repeat split; vm_compute; reflexivity. Qed.

(** C7, on the code. A text that is no subtitle file does not make
    [fromSrt] throw: it has no blocks. So the [catch] block is not entered,
    and [parseSrt] returns no line at all for a text of two segments. *)
Theorem text_without_blocks_gives_no_line :
  Str.split Str.lf_char Sample.plain_text = ["just text"; "more"] /\
  fromSrt Sample.plain_text = inr [] /\
  parseSrt Sample.plain_text = inr [].
Proof. repeat split; vm_compute; reflexivity. Qed.

Lemma embedding_fault_reaches_the_caller_witness :
  fst (indexContent (upstream := Sample.failing_first) "42"
         (mapi fallback_line ["Hello there"; "Bye"]) empty_world)
  = inl (UpstreamError quota).
Proof.
  apply (embedding_fault_reaches_the_caller (upstream := Sample.failing_first) "42"
           (mapi fallback_line ["Hello there"; "Bye"]) empty_world quota).
  reflexivity.
Defined.

(** C4, through the worker: the embedding call fails in both attempts, and
    the [failed] events on the bus carry the message of the provider. *)
Lemma provider_message_reaches_the_bus :
  exists w',
    work (upstream := Sample.failing_embeddings) Sample.job empty_world
      = (inr (exhausted (fault_message quota)), w') /\
    terminal_events "42" (bus w')
      = [failed (fault_message quota); failed (fault_message quota)].
Proof. eexists; split; vm_compute; reflexivity. Qed.



(** The index of the examples applies the filter. *)
Lemma services_honour_filter (faults : list nat) (blueprint triage : JSON) :
  honours_filter (services faults blueprint triage).
Proof.
  intros n store req matches m Hquery Hin. simpl in Hquery.
  destruct (faulty faults n); [discriminate|]. injection Hquery as <-.
  unfold search in Hin.
  assert (Hall : In m (map stored_match
                   (filter (fun r => String.eqb (md_jobId (vec_metadata r)) (q_filter_jobId req)) store))).
  { rewrite <- (firstn_skipn (q_topK req)). apply in_or_app; now left. }
  apply in_map_iff in Hall as (r & <- & Hr). apply filter_In in Hr as [Hr Hjob].
  exists r; repeat split; [assumption|]. now apply String.eqb_eq.
Qed.

Lemma queryContext_is_scoped_to_the_job_witness :
  namespace "42" (vectorIndex Sample.indexed) <> [] /\
  namespace "99" (vectorIndex Sample.indexed) = [] /\
  fst (queryContext (upstream := Sample.healthy) "99" "Hello" 5 Sample.indexed) = inr no_context.
Proof.
  split; [vm_compute; discriminate|split; [reflexivity|]].
  destruct (queryContext_is_scoped_to_the_job (upstream := Sample.healthy) "99" "Hello" 5
              Sample.indexed [Num.of_nat 5] (Some []) eq_refl eq_refl)
    as (_ & _ & _ & _ & Hnever).
  apply Hnever; [apply services_honour_filter|].
  vm_compute. repeat constructor; discriminate.
Defined.

Lemma translation_keeps_what_it_indexed_witness :
  exists result w',
    executeTranslation (upstream := Sample.healthy) "42" Sample.three_lines "Casual" "brief"
      (updateStage "42") empty_world = (inr result, w') /\
    map vec_id (namespace "42" (vectorIndex w')) = ["42-1"; "42-2"; "42-3"] /\
    exists lines indexed,
      parseSrt Sample.three_lines = inr lines /\
      indexContent (upstream := Sample.healthy) "42" lines
        (snd (updateStage "42" "Indexing script for long-term memory..." empty_world))
        = (inr tt, indexed) /\
      vectorIndex w' = vectorIndex indexed /\
      In (console_log "Cleanup for job 42 would be performed here.") (console w').
Proof.
  destruct (executeTranslation (upstream := Sample.healthy) "42" Sample.three_lines "Casual"
              "brief" (updateStage "42") empty_world) as [[e|result] w'] eqn:E;
    [vm_compute in E; discriminate|].
  exists result, w'. split; [reflexivity|].
  split; [vm_compute in E; injection E as _ <-; reflexivity|].
  exact (proj1 (translation_keeps_what_it_indexed (upstream := Sample.healthy) "42"
                  Sample.three_lines "Casual" "brief" empty_world w' result E)).
Defined.

(** C10: the job of the example runs to the end, and the three vectors
    stored for it are still in the index. *)
Lemma vectors_outlive_the_job :
  exists result w',
    work (upstream := Sample.healthy) Sample.job empty_world = (inr (returned result), w') /\
    map vec_id (namespace "42" (vectorIndex w')) = ["42-1"; "42-2"; "42-3"] /\
    console w' = [console_log "Cleanup for job 42 would be performed here."].
Proof.
  eexists; eexists; split; [vm_compute; reflexivity|].
  split; vm_compute; reflexivity.
Qed.

End Examples.

(** ** Batches *)

Lemma chunks_fuel_spec {A} (size fuel : nat) (xs : list A) :
  List.length xs <= fuel ->
  List.concat (chunks_fuel fuel (S size) xs) = xs /\
  Forall (fun c => 1 <= List.length c <= S size) (chunks_fuel fuel (S size) xs) /\
  List.length (chunks_fuel fuel (S size) xs) = (List.length xs + size) / S size.
Proof.
  assert (Hnil : 0 = (List.length (@nil A) + size) / S size)
    by (symmetry; apply Nat.div_small; cbn [List.length]; lia).
  revert xs; induction fuel as [|fuel IH]; intros xs Hlen.
  - destruct xs; [|cbn [List.length] in Hlen; lia]. cbn [chunks_fuel].
    repeat split; [constructor|exact Hnil].
  - destruct xs as [|x xs]; cbn [chunks_fuel].
    + repeat split; [constructor|exact Hnil].
    + set (l := x :: xs) in *.
      assert (Hskip : List.length (skipn (S size) l) <= fuel).
      { rewrite length_skipn. subst l; cbn [List.length] in *; lia. }
      destruct (IH _ Hskip) as (Hcat & Hall & Hcount).
      split; [|split].
      * cbn [List.concat]. rewrite Hcat. apply firstn_skipn.
      * constructor; [|exact Hall]. rewrite length_firstn. subst l; cbn [List.length]; lia.
      * cbn [List.length]. rewrite Hcount, length_skipn.
        assert (Hl : 1 <= List.length l) by (subst l; cbn [List.length]; lia).
        remember (List.length l) as n eqn:En.
        destruct (Nat.le_gt_cases n (S size)) as [Hle|Hgt].
        -- assert (H0 : (n - S size + size) / S size = 0) by (apply Nat.div_small; lia).
           assert (H1 : (n + size) / S size = 1)
             by (symmetry; apply Nat.div_unique with (r := n - 1); lia).
           lia.
        -- assert (H1 : (n + size) / S size = (n - S size + size) / S size + 1).
           { replace (n + size) with ((n - S size + size) + 1 * S size) by lia.
             apply Nat.div_add; lia. }
           lia.
Qed.

(** The loop [for (i = 0; i < xs.length; i += size) push(xs.slice(i, i + size))]
    loses and reorders nothing: for a positive size the chunks, put end to
    end, are the list; no chunk is empty or longer than the size; and there
    are as many chunks as the length divided by the size, rounded up. *)
Theorem chunks_partition {A} (size : nat) (xs : list A) :
  List.concat (chunks (S size) xs) = xs /\
  Forall (fun c => 1 <= List.length c <= S size) (chunks (S size) xs) /\
  List.length (chunks (S size) xs) = (List.length xs + size) / S size.
Proof. apply chunks_fuel_spec; reflexivity. Qed.

Lemma mapi_from_pair_snd {A} (xs : list A) (from : nat) :
  map snd (mapi_from from pair xs) = xs.
Proof.
  revert from; induction xs as [|x xs IH]; intros from; simpl; [reflexivity|].
  now rewrite IH.
Qed.

(** What a loop that ran to its end returned: one result per element, each
    the result of the body on that element in some world. *)
Lemma for_each_returns {A B} (body : A -> M B) (xs : list A) (w w' : World) (ys : list B) :
  for_each body xs w = (inr ys, w') ->
  Forall2 (fun x y => exists w1 w2, body x w1 = (inr y, w2)) xs ys.
Proof.
  revert w w' ys; induction xs as [|x xs IH]; intros w w' ys H; cbn [for_each] in H.
  - injection H as <- _. constructor.
  - apply bind_returns in H as (y & w1 & Hy & H).
    apply bind_returns in H as (ys' & w2 & Hys & H).
    injection H as <- _. constructor; [eauto|eapply IH; eauto].
Qed.

Lemma Forall2_map_left {A B C} (R : B -> C -> Prop) (f : A -> B) (xs : list A) (ys : list C) :
  Forall2 (fun x y => R (f x) y) xs ys -> Forall2 R (map f xs) ys.
Proof. induction 1; simpl; constructor; auto. Qed.

Section TranslationOutput.
Import TranslationWorkerService.
Context {engine : JsEngine} {parser : SrtParser} {upstream : Upstream}.

Lemma translatedBatch_app (b1 b2 : list SrtLine) (t1 t2 : list string) :
  List.length t1 = List.length b1 ->
  translatedBatch (b1 ++ b2) (t1 ++ t2) = translatedBatch b1 t1 ++ translatedBatch b2 t2.
Proof.
  intros Hlen. unfold translatedBatch. rewrite <- map_app. f_equal.
  revert t1 Hlen; induction b1 as [|l b1 IH]; intros [|t t1] Hlen;
    simpl in *; try discriminate; [reflexivity|].
  f_equal. apply IH. lia.
Qed.

Lemma translateBatch_returns (jid tone translationBrief : string) (report : string -> M unit)
    (total i : nat) (batch : list SrtLine) (w w' : World) (out : list TranslatedSrtLine) :
  translateBatch jid tone translationBrief report total i batch w = (inr out, w') ->
  exists texts, List.length texts = List.length batch /\ out = translatedBatch batch texts.
Proof.
  unfold translateBatch. intros H.
  apply bind_returns in H as (? & ? & _ & H).
  apply bind_returns in H as (triage & ? & _ & H).
  apply bind_returns in H as (texts & ? & Htexts & H).
  injection H as <- _.
  exists texts; split; [|reflexivity].
  apply for_each_returns in Htexts. symmetry. exact (Forall2_length Htexts).
Qed.

Lemma translated_batches (batches : list (list SrtLine)) (translated : list (list TranslatedSrtLine)) :
  Forall2 (fun batch out => exists texts,
             List.length texts = List.length batch /\ out = translatedBatch batch texts)
          batches translated ->
  exists texts,
    List.length texts = List.length (List.concat batches) /\
    List.concat translated = translatedBatch (List.concat batches) texts.
Proof.
  induction 1 as [|batch out batches translated (t & Hlen & ->) _ (ts & Hlens & IH)].
  - exists []; split; reflexivity.
  - exists (t ++ ts); cbn [List.concat]; split.
    + rewrite !length_app. lia.
    + rewrite IH. symmetry. now apply translatedBatch_app.
Qed.

(** When [executeTranslation] returns, its result is the print of one block
    per parsed line, in the order of the input, each with the sequence and
    the timestamps of its line and one translation as its text: cutting the
    lines into batches of 15 drops, repeats and reorders nothing. *)
Theorem executeTranslation_renders_every_line (jid subtitleContent tone translationBrief : string)
    (report : string -> M unit) (w w' : World) (result : string) :
  executeTranslation jid subtitleContent tone translationBrief report w = (inr result, w') ->
  exists lines texts,
    parseSrt subtitleContent = inr lines /\
    List.length texts = List.length lines /\
    result = toSrt (rendered lines texts) /\
    map block_id (rendered lines texts) = map (fun l => Number_toString (sequence l)) lines /\
    map block_startTime (rendered lines texts) = map startTime lines /\
    map block_endTime (rendered lines texts) = map endTime lines /\
    map block_text (rendered lines texts) = texts.
Proof.
  unfold executeTranslation. intros H.
  apply bind_returns in H as (lines & w0 & Hparse & H).
  apply lift_returns in Hparse as (Hparse & ->).
  apply bind_returns in H as (? & ? & _ & H).
  apply bind_returns in H as (? & ? & _ & H).
  apply bind_returns in H as (translated & ? & Hbatches & H).
  apply bind_returns in H as (? & ? & _ & H).
  apply bind_returns in H as (? & ? & _ & H).
  injection H as <- _.
  apply for_each_returns in Hbatches.
  assert (Hall : Forall2 (fun batch out => exists texts,
                    List.length texts = List.length batch /\ out = translatedBatch batch texts)
                  (chunks linesPerBatch lines) translated).
  { rewrite <- (mapi_from_pair_snd (chunks linesPerBatch lines) 0) at 1.
    apply Forall2_map_left. unfold mapi in Hbatches.
    eapply Forall2_impl; [|exact Hbatches].
    intros [i batch] out (w1 & w2 & Hout). now apply translateBatch_returns in Hout. }
  apply translated_batches in Hall as (texts & Hlen & Hcat).
  destruct (chunks_partition 14 lines) as (Hlines & _).
  change (chunks 15 lines) with (chunks linesPerBatch lines) in Hlines.
  rewrite Hlines in Hlen, Hcat.
  exists lines, texts. split; [exact Hparse|]. split; [exact Hlen|].
  split; [unfold toSrtString; now rewrite Hcat|].
  unfold rendered, translatedBatch. rewrite !map_map; cbn [srt_block block_id block_startTime
    block_endTime block_text line translatedText].
  repeat split.
  - rewrite <- (map_map fst (fun l => Number_toString (sequence l))). now rewrite combine_map_fst.
  - rewrite <- (map_map fst startTime). now rewrite combine_map_fst.
  - rewrite <- (map_map fst endTime). now rewrite combine_map_fst.
  - now apply combine_map_snd.
Qed.

End TranslationOutput.

(** ** Indexing *)

Lemma mapE_returns {A B} (f : A -> Thrown + B) (xs : list A) (ys : list B) :
  mapE f xs = inr ys -> Forall2 (fun x y => f x = inr y) xs ys.
Proof.
  revert ys; induction xs as [|x xs IH]; intros ys H; cbn [mapE] in H.
  - injection H as <-. constructor.
  - unfold bindE in H at 1. destruct (f x) as [e|y] eqn:Ey; [discriminate|].
    unfold bindE in H. destruct (mapE f xs) as [e|ys'] eqn:Eys; [discriminate|].
    injection H as <-. constructor; auto.
Qed.

Lemma fold_left_concat {A B} (f : A -> B -> A) (xss : list (list B)) (a : A) :
  fold_left f (List.concat xss) a = fold_left (fun acc xs => fold_left f xs acc) xss a.
Proof.
  revert a; induction xss as [|xs xss IH]; intros a; cbn [List.concat fold_left]; [reflexivity|].
  now rewrite fold_left_app, IH.
Qed.

Section Indexing.
Import TranslationWorkerService.
Context {engine : JsEngine} {parser : SrtParser} {upstream : Upstream}.

Lemma upserts_return (chunked : list (list VectorRecord)) (w w' : World) (done : list unit) :
  for_each call_upsert chunked w = (inr done, w') ->
  calls w' = calls w ++ map Upsert chunked /\
  vectorIndex w' = fold_left (fun store vs => store_upsert vs store) chunked (vectorIndex w) /\
  bus w' = bus w /\ console w' = console w.
Proof.
  revert w w' done; induction chunked as [|vs chunked IH]; intros w w' done H;
    cbn [for_each] in H.
  - injection H as _ <-. now rewrite app_nil_r.
  - apply bind_returns in H as ([] & w1 & Hone & H).
    apply bind_returns in H as (rest & w2 & Hrest & H).
    injection H as _ <-.
    unfold call_upsert in Hone. destruct (upsert_fault _ _); [discriminate|].
    injection Hone as <-.
    destruct (IH _ _ _ Hrest) as (Hcalls & Hindex & Hbus & Hconsole).
    rewrite Hcalls, Hindex, Hbus, Hconsole; cbn. now rewrite <- app_assoc.
Qed.

Lemma vectors_of_lines (jid : string) (embeddings : list (list float))
    (lines : list SrtLine) (from : nat) (vectors : list VectorRecord) :
  mapE (fun p => vector_of jid embeddings (fst p) (snd p)) (mapi_from from pair lines)
    = inr vectors ->
  Forall2 (fun l v =>
             vec_id v = jid ^^ "-" ^^ Number_toString (sequence l) /\
             vec_metadata v = {| md_jobId := jid; md_text := text l |})
          lines vectors /\
  (forall i v, nth_error vectors i = Some v ->
               nth_error embeddings (from + i) = Some (vec_values v)).
Proof.
  revert from vectors; induction lines as [|l lines IH]; intros from vectors H;
    cbn [mapi_from mapE] in H.
  - injection H as <-. split; [constructor|]. intros [|i] v Hv; discriminate.
  - cbn [fst snd] in H. unfold vector_of, embedding_at in H.
    destruct (nth_error embeddings from) as [values|] eqn:Ev; [|discriminate].
    cbn [bindE] in H.
    destruct (mapE _ (mapi_from (S from) pair lines)) as [e|rest] eqn:Er; [discriminate|].
    cbn [bindE] in H.
    injection H as <-. destruct (IH _ _ Er) as (Hall & Hnth).
    split; [constructor; [split; reflexivity|exact Hall]|].
    intros [|i] v Hv; cbn [nth_error] in Hv.
    + injection Hv as <-. now rewrite Nat.add_0_r.
    + replace (from + S i) with (S from + i) by lia. now apply Hnth.
Qed.

(** When [indexContent] returns, it has asked for the embeddings of all the
    texts in one call and then sent the vectors, one per line and in the
    order of the lines, in upserts of at most 100: vector [i] has the id
    [jobId-sequence] of line [i], embedding [i] of the reply and the job id
    and the text of the line as metadata. The index is then what one upsert
    of all the vectors would have left. *)
Theorem indexContent_upserts_every_line (jid : string) (lines : list SrtLine)
    (w w' : World) :
  indexContent jid lines w = (inr tt, w') ->
  exists embeddings vectors,
    batchEmbedContents (List.length (calls w)) (map text lines) = inr embeddings /\
    Forall2 (fun l v =>
               vec_id v = jid ^^ "-" ^^ Number_toString (sequence l) /\
               vec_metadata v = {| md_jobId := jid; md_text := text l |})
            lines vectors /\
    (forall i v, nth_error vectors i = Some v ->
                 nth_error embeddings i = Some (vec_values v)) /\
    calls w' = calls w ++ BatchEmbedContents embeddingModelName (map text lines)
                       :: map Upsert (chunks 100 vectors) /\
    List.concat (chunks 100 vectors) = vectors /\
    Forall (fun vs => 1 <= List.length vs <= 100) (chunks 100 vectors) /\
    vectorIndex w' = store_upsert vectors (vectorIndex w).
Proof.
  unfold indexContent. intros H.
  apply bind_returns in H as (embeddings & w1 & Hembed & H).
  apply bind_returns in H as (vectors & w2 & Hvectors & H).
  apply lift_returns in Hvectors as (Hvectors & ->).
  apply bind_returns in H as (done & w3 & Hupserts & H).
  injection H as <-.
  unfold call_batchEmbedContents in Hembed.
  destruct (batchEmbedContents _ _) as [f|embeddings'] eqn:Ereply; [discriminate|].
  injection Hembed as <- <-.
  destruct (vectors_of_lines _ _ _ _ _ Hvectors) as (Hall & Hnth).
  destruct (upserts_return _ _ _ _ Hupserts) as (Hcalls & Hindex & _ & _).
  destruct (chunks_partition 99 vectors) as (Hcat & Hsizes & _).
  exists embeddings', vectors. repeat split; try assumption.
  - rewrite Hcalls; cbn. now rewrite <- app_assoc.
  - rewrite Hindex; cbn. unfold store_upsert at 2.
    rewrite <- Hcat at 2. now rewrite fold_left_concat.
Qed.

Lemma too_few_embeddings (jid : string) (embeddings : list (list float))
    (lines : list SrtLine) (from : nat) :
  from <= List.length embeddings < from + List.length lines ->
  mapE (fun p => vector_of jid embeddings (fst p) (snd p)) (mapi_from from pair lines)
    = inl (cannot_read "undefined" "values").
Proof.
  revert from; induction lines as [|l lines IH]; intros from Hlen; cbn [mapi_from mapE].
  - cbn [List.length] in Hlen.
    exfalso. lia.
  - cbn [fst snd]. unfold vector_of, embedding_at.
    destruct (nth_error embeddings from) as [values|] eqn:Ev; [|reflexivity].
    cbn [bindE]. rewrite IH; [reflexivity|]. cbn [List.length] in Hlen.
    assert (from < List.length embeddings) by (apply nth_error_Some; congruence). lia.
Qed.

(** When the reply of [batchEmbedContents] holds fewer embeddings than there
    are lines, [indexContent] throws the [TypeError] of reading [values] of
    [undefined], before any upsert: the index is untouched and the embedding
    call is the only call made. *)
Theorem indexContent_needs_an_embedding_per_line (jid : string) (lines : list SrtLine)
    (w : World) (embeddings : list (list float)) :
  batchEmbedContents (List.length (calls w)) (map text lines) = inr embeddings ->
  List.length embeddings < List.length lines ->
  fst (indexContent jid lines w)
    = inl (TypeError "Cannot read properties of undefined (reading 'values')") /\
  calls (snd (indexContent jid lines w))
    = calls w ++ [BatchEmbedContents embeddingModelName (map text lines)] /\
  vectorIndex (snd (indexContent jid lines w)) = vectorIndex w.
Proof.
  intros Hreply Hlen.
  unfold indexContent, bind, call_batchEmbedContents, lift. rewrite Hreply; cbn [of_service].
  unfold mapi. rewrite too_few_embeddings by (cbn; lia). repeat split.
Qed.

End Indexing.

Section Blueprint.
Import TranslationWorkerService Jobs.
Context {engine : JsEngine} {parser : SrtParser} {upstream : Upstream}.

Lemma parseSrt_returns (srtContent : string) : exists lines, parseSrt srtContent = inr lines.
Proof. unfold parseSrt, attempt, bindE. destruct (fromSrt srtContent); eauto. Qed.

Lemma runJsonTool_calls (modelName prompt : string) (w : World) :
  calls (snd (runJsonTool modelName prompt w)) = calls w ++ [json_call (modelName, prompt)].
Proof.
  unfold runJsonTool, try_catch, bind, call_generateContent, lift, print, throw; simpl.
  destruct (generateContent _ _) as [f|reply]; simpl; [reflexivity|].
  now destruct (JSON_parse reply).
Qed.

Lemma get_throws (v : JSON) (k : string) (e : Thrown) :
  get (Some v) k = inl e -> e = cannot_read "null" k.
Proof. destruct v; simpl; intros H; now inversion H. Qed.

Ltac next_tool e v w E :=
  lazymatch goal with
  | |- context [runJsonTool ?m ?p ?w0] =>
      pose proof (runJsonTool_calls m p w0) as E;
      let T := fresh "T" in
      pose proof (runJsonTool_throws m p w0) as T;
      destruct (runJsonTool m p w0) as [[e|v] w]; cbn [fst snd] in E;
      [specialize (T _ _ eq_refl); subst e|clear T]
  end.

Ltac next_get k E :=
  lazymatch goal with
  | |- context [get (Some ?v) ?key] =>
      destruct (get (Some v) key) as [?e|k] eqn:E;
      [apply get_throws in E; subst|]
  end.

(** [generateBlueprint] throws one of three things only: the uniform error
    of the gateway, the error for a blueprint without a glossary, or the
    [TypeError] of reading a member of [null], when a model replied with the
    JSON text [null]. A fault of the provider never leaves it as it
    arrived. *)
Theorem generateBlueprint_throws_its_own_errors (subtitleContent tone : string)
    (userGlossary : list UserGlossaryItem) (jid : string) (w : World) :
  match fst (generateBlueprint subtitleContent tone userGlossary (updateStage jid) w) with
  | inr blueprint => True
  | inl e =>
      e = Error "An internal AI error occurred while processing data." \/
      e = Error "AI failed to generate a valid blueprint." \/
      exists member,
        In member ["keywords"; "grounded_keywords"; "glossary"] /\
        e = TypeError ("Cannot read properties of null (reading '" ^^ member ^^ "')")
  end.
Proof.
  unfold generateBlueprint, bind at 1, lift at 1.
  destruct (parseSrt_returns subtitleContent) as (lines & ->).
  unfold bind, lift, updateStage, updateProgress, emit, bind; cbn [fst snd].
  next_tool e1 extracted w1 E1; [now left|].
  next_get keywords K1; [right; right; exists "keywords"; simpl; auto|].
  next_tool e2 grounded w2 E2; [now left|].
  next_get groundedKeywords K2; [right; right; exists "grounded_keywords"; simpl; auto|].
  next_tool e3 blueprint w3 E3; [now left|].
  next_get glossary K3; [right; right; exists "glossary"; simpl; auto|].
  destruct (truthy glossary); cbn; auto.
Qed.

(** [generateBlueprint] calls the text model at most three times and nothing
    else: the fast model, the fast model again and the deep model, in this
    order and each in JSON mode, all three when it returns. *)
Theorem generateBlueprint_asks_flash_flash_pro (subtitleContent tone : string)
    (userGlossary : list UserGlossaryItem) (jid : string) (w : World) :
  exists prompts,
    calls (snd (generateBlueprint subtitleContent tone userGlossary (updateStage jid) w))
      = calls w ++ map json_call
                       (combine ["gemini-2.5-flash"; "gemini-2.5-flash"; "gemini-2.5-pro"]
                                prompts) /\
    List.length prompts <= 3 /\
    match fst (generateBlueprint subtitleContent tone userGlossary (updateStage jid) w) with
    | inr blueprint => List.length prompts = 3
    | inl e => True
    end.
Proof.
  unfold generateBlueprint, bind at 1, lift at 1.
  destruct (parseSrt_returns subtitleContent) as (lines & ->).
  unfold bind, lift, updateStage, updateProgress, emit, bind; cbn [fst snd].
  next_tool e1 extracted w1 E1; cbn [calls] in E1;
    [eexists [_]; cbn [fst snd]; rewrite E1; cbn; auto|].
  next_get keywords K1; [eexists [_]; cbn [fst snd]; rewrite E1; cbn; auto|].
  next_tool e2 grounded w2 E2; cbn [calls] in E2;
    [eexists [_; _]; cbn [fst snd]; rewrite E2, E1, <- app_assoc; cbn; auto|].
  next_get groundedKeywords K2;
    [eexists [_; _]; cbn [fst snd]; rewrite E2, E1, <- app_assoc; cbn; auto|].
  next_tool e3 blueprint w3 E3; cbn [calls] in E3;
    [eexists [_; _; _]; cbn [fst snd]; rewrite E3, E2, E1, <- !app_assoc; cbn; auto|].
  next_get glossary K3;
    [eexists [_; _; _]; cbn [fst snd]; rewrite E3, E2, E1, <- !app_assoc; cbn; auto|].
  destruct (truthy glossary);
    eexists [_; _; _]; cbn [fst snd ret throw]; rewrite E3, E2, E1, <- !app_assoc; cbn; auto.
Qed.

End Blueprint.

Lemma bind_result {A B} (m : M A) (k : A -> M B) (w w' : World) (r : Thrown + B) :
  bind m k w = (r, w') ->
  (exists e, m w = (inl e, w') /\ r = inl e) \/
  (exists a w1, m w = (inr a, w1) /\ k a w1 = (r, w')).
Proof.
  unfold bind. destruct (m w) as [[e|a] w1]; intros H.
  - injection H as <- <-. left; eauto.
  - right; eauto.
Qed.

Section Attempt.
Import TranslationWorkerService Jobs.
Context {engine : JsEngine} {parser : SrtParser} {upstream : Upstream}.

Lemma announced {A} (jid : string) (m : M A) (w w' : World) (r : Thrown + A) :
  keeps (inside (announces jid) jid) m -> m w = (r, w') ->
  exists new, bus w' = bus w ++ new /\ Forall (announces jid) new.
Proof. intros Hm H. now destruct (keeps_at m w w' r Hm H). Qed.

Lemma announces_updateStage (jid stage : string) :
  keeps (inside (announces jid) jid) (updateStage jid stage).
Proof. apply inside_updateStage. now exists stage. Qed.

Lemma try_block_publishes (job : Job) (w w' : World) (r : Thrown + string) :
  let jid := jobId (job_data job) in
  (updateStage jid "Generating blueprint..." ;;
   blueprint <- generateBlueprint (subtitleContent (job_data job)) (tone (job_data job))
                  (userGlossary (job_data job)) (updateStage jid) ;;
   translationBrief <- lift (stringifyBlueprint blueprint) ;;
   emit jid (blueprint_ready blueprint) ;;
   updateStage jid "Executing translation..." ;;
   finalTranslation <- executeTranslation jid (subtitleContent (job_data job))
                         (tone (job_data job)) translationBrief (updateStage jid) ;;
   emit jid (completed finalTranslation) ;;
   ret finalTranslation) w = (r, w') ->
  exists before after,
    Forall (announces jid) before /\ Forall (announces jid) after /\
    match r with
    | inr result =>
        exists blueprint brief,
          stringifyBlueprint blueprint = inr brief /\
          bus w' = bus w ++ before ++ (jid, blueprint_ready blueprint) :: after
                         ++ [(jid, completed result)]
    | inl e =>
        bus w' = bus w ++ before /\ after = [] \/
        exists blueprint brief,
          stringifyBlueprint blueprint = inr brief /\
          bus w' = bus w ++ before ++ (jid, blueprint_ready blueprint) :: after
    end.
Proof.
  intros jid H.
  apply bind_result in H as [(e & H1 & ->)|([] & w1 & H1 & H)];
    apply announced with (jid := jid) in H1 as (n1 & B1 & F1);
    try apply announces_updateStage.
  { exists n1, []; repeat split; auto. }
  apply bind_result in H as [(e & H2 & ->)|(blueprint & w2 & H2 & H)];
    apply announced with (jid := jid) in H2 as (n2 & B2 & F2);
    try (apply inside_generateBlueprint; intros; apply announces_updateStage).
  { exists (n1 ++ n2), []; repeat split; auto using Forall_app.
    - now apply Forall_app.
    - left; split; [|reflexivity]. now rewrite B2, B1, app_assoc. }
  apply bind_result in H as [(e & H3 & ->)|(brief & w3 & H3 & H)].
  { injection H3 as _ <-. exists (n1 ++ n2), []; repeat split; auto.
    - now apply Forall_app.
    - left; split; [|reflexivity]. now rewrite B2, B1, app_assoc. }
  apply lift_returns in H3 as (Hbrief & ->).
  apply bind_result in H as [(e & H4 & ->)|([] & w4 & H4 & H)]; [discriminate|].
  injection H4 as <-.
  apply bind_result in H as [(e & H5 & ->)|([] & w5 & H5 & H)];
    apply announced with (jid := jid) in H5 as (n5 & B5 & F5);
    try apply announces_updateStage; cbn [bus] in B5.
  { exists (n1 ++ n2), n5; repeat split; auto.
    - now apply Forall_app.
    - right; exists blueprint, brief; split; [assumption|].
      rewrite B5, B2, B1, <- !app_assoc. reflexivity. }
  apply bind_result in H as [(e & H6 & ->)|(finalTranslation & w6 & H6 & H)];
    apply announced with (jid := jid) in H6 as (n6 & B6 & F6);
    try (apply inside_executeTranslation; intros; apply announces_updateStage).
  { exists (n1 ++ n2), (n5 ++ n6); repeat split; auto.
    - now apply Forall_app.
    - now apply Forall_app.
    - right; exists blueprint, brief; split; [assumption|].
      rewrite B6, B5, B2, B1, <- !app_assoc. reflexivity. }
  unfold bind, emit, ret in H; cbn in H. injection H as <- <-. cbn [bus].
  exists (n1 ++ n2), (n5 ++ n6); repeat split; auto.
  - now apply Forall_app.
  - now apply Forall_app.
  - exists blueprint, brief; split; [assumption|].
    rewrite B6, B5, B2, B1, <- !app_assoc. reflexivity.
Qed.

(** What one attempt publishes, whatever the services answer: stage
    announcements of the job, then at most one [blueprint_ready], more stage
    announcements, and the terminal event last. An attempt that completes
    has published the blueprint before; the blueprint it published is one
    that [stringifyBlueprint] could render. An attempt that failed before
    the blueprint was ready publishes announcements and [failed] only. *)
Theorem attempt_publishes_blueprint_before_result (job : Job) (w : World) :
  exists before after,
    Forall (announces (jobId (job_data job))) before /\
    Forall (announces (jobId (job_data job))) after /\
    let last := (jobId (job_data job), terminal_of (fst (processor job w))) in
    let ready blueprint :=
      exists brief, stringifyBlueprint blueprint = inr brief /\
      bus (snd (processor job w))
        = bus w ++ before ++ (jobId (job_data job), blueprint_ready blueprint)
                :: after ++ [last] in
    match fst (processor job w) with
    | inr result => exists blueprint, ready blueprint
    | inl e =>
        bus (snd (processor job w)) = bus w ++ before ++ [last] /\ after = [] \/
        exists blueprint, ready blueprint
    end.
Proof.
  unfold processor, try_catch.
  lazymatch goal with
  | |- context [match ?body w with _ => _ end] =>
      destruct (body w) as [[e|result] w1] eqn:Hbody
  end; apply try_block_publishes in Hbody as (before & after & Hb & Ha & H);
    exists before, after; (split; [assumption|]); (split; [assumption|]);
    cbn [fst snd terminal_of].
  - unfold bind, emit, throw; cbn.
    destruct H as [(H & ->)|(blueprint & brief & Hbrief & H)].
    + left. now rewrite H, <- app_assoc.
    + right. exists blueprint, brief. split; [assumption|].
      rewrite H, <- !app_assoc. reflexivity.
  - destruct H as (blueprint & brief & Hbrief & H). exists blueprint, brief. auto.
Qed.

End Attempt.

Section Choice.
Import TranslationWorkerService.
Context {engine : JsEngine} {parser : SrtParser} {upstream : Upstream}.

Lemma find_id_first (before after : list JSON) (t : JSON) (sequence : float) :
  Forall (fun u => id_is u sequence = inr false) before ->
  id_is t sequence = inr true ->
  find_id (before ++ t :: after) sequence = inr (Some t).
Proof.
  intros Hbefore Ht. induction Hbefore as [|u before Hu _ IH]; simpl.
  - now rewrite Ht.
  - now rewrite Hu.
Qed.

(** The context query and the request that follows it: an embedding, a
    query for the five nearest records of the job, and one request to
    [model], whose reply is the result. *)
Lemma context_then_request (line : SrtLine) (model jobId tone translationBrief : string)
    (w : World) :
  let run := (longTermContext <- queryContext jobId (text line) 5 ;;
              runTextGen model (getStep2_Prompt line longTermContext translationBrief tone)) in
  bus (snd (run w)) = bus w /\
  (exists new,
     calls (snd (run w)) = calls w ++ new /\
     forall request, In (GenerateContent request) new ->
       req_model request = model /\ req_json request = false) /\
  (forall translation,
     fst (run w) = inr translation ->
     exists embedding matches,
       let request :=
         {| req_model := model;
            req_prompt := getStep2_Prompt line (context_of matches) translationBrief tone;
            req_json := false |} in
       calls (snd (run w))
         = calls w ++ [EmbedContent "text-embedding-004" (text line);
                       Query {| q_vector := embedding; q_topK := 5; q_filter_jobId := jobId |};
                       GenerateContent request] /\
       generateContent (S (S (List.length (calls w)))) request = inr translation).
Proof.
  intros run. unfold run, queryContext, runTextGen, try_catch, call_embedContent, call_query,
    call_generateContent, bind, ret, print, throw, log_call, embeddingModelName.
  destruct (embedContent (List.length (calls w)) (text line)) as [fault|embedding];
    cbn [of_service fst snd calls bus vectorIndex].
  { split; [reflexivity|split].
    - eexists; split; [reflexivity|]. intros request [H|[]]; discriminate.
    - intros translation H; discriminate. }
  rewrite length_app; cbn [List.length]. rewrite Nat.add_1_r.
  destruct (query (S (List.length (calls w))) (vectorIndex w)
              {| q_vector := embedding; q_topK := 5; q_filter_jobId := jobId |})
    as [fault|matches]; cbn [of_service fst snd calls bus vectorIndex].
  { split; [reflexivity|split].
    - eexists; split; [rewrite <- app_assoc; reflexivity|].
      intros request [H|[H|[]]]; discriminate.
    - intros translation H; discriminate. }
  rewrite !length_app; cbn [List.length]. rewrite !Nat.add_1_r.
  destruct (generateContent (S (S (List.length (calls w)))) _) as [fault|reply] eqn:Hreply;
    cbn [of_service fst snd calls bus vectorIndex].
  - split; [reflexivity|split].
    + eexists; split; [rewrite <- !app_assoc; reflexivity|].
      intros request [H|[H|[H|[]]]]; try discriminate. injection H as <-. now split.
    + intros translation H; discriminate.
  - split; [reflexivity|split].
    + eexists; split; [rewrite <- !app_assoc; reflexivity|].
      intros request [H|[H|[H|[]]]]; try discriminate. injection H as <-. now split.
    + intros translation H; injection H as <-. exists embedding, matches.
      split; [rewrite <- !app_assoc; reflexivity|exact Hreply].
Qed.

(** What the translation of a line does once the classification gave the
    string [model] for it: it announces the stage, asks for the embedding of
    the text and for its five nearest records, and then sends one request to
    the deep model if [model] is [pro] and to the fast model otherwise; the
    reply to that request is the translation. *)
Lemma translateLine_with (triageResult : JSON) (line : SrtLine) (model : string)
    (jobId tone translationBrief : string) (w : World) :
  modelChoice triageResult line = inr (JStr model) ->
  bus (snd (translateLine jobId tone translationBrief (Jobs.updateStage jobId) triageResult line w))
    = bus w ++ [(jobId, progress ("Translating line " ^^ Number_toString (sequence line)
                                  ^^ " with " ^^ String_toUpperCase model ^^ " model"))] /\
  (exists new,
     calls (snd (translateLine jobId tone translationBrief (Jobs.updateStage jobId)
                   triageResult line w)) = calls w ++ new /\
     forall request, In (GenerateContent request) new ->
       req_model request = (if String.eqb model "pro" then "gemini-2.5-pro"
                            else "gemini-2.5-flash") /\
       req_json request = false) /\
  (forall translation,
     fst (translateLine jobId tone translationBrief (Jobs.updateStage jobId) triageResult line w)
       = inr translation ->
     exists embedding matches,
       let request :=
         {| req_model := if String.eqb model "pro" then "gemini-2.5-pro"
                         else "gemini-2.5-flash";
            req_prompt := getStep2_Prompt line (context_of matches) translationBrief tone;
            req_json := false |} in
       calls (snd (translateLine jobId tone translationBrief (Jobs.updateStage jobId)
                     triageResult line w))
         = calls w ++ [EmbedContent "text-embedding-004" (text line);
                       Query {| q_vector := embedding; q_topK := 5; q_filter_jobId := jobId |};
                       GenerateContent request] /\
       generateContent (S (S (List.length (calls w)))) request = inr translation).
Proof.
  intros Hchoice. unfold translateLine.
  rewrite (bind_inr _ _ w w (JStr model)) by (unfold lift; now rewrite Hchoice).
  rewrite (bind_inr _ _ w w (String_toUpperCase model)) by reflexivity.
  cbn [modelToUse]. unfold proModel, flashModel.
  set (stage := "Translating line " ^^ Number_toString (sequence line)
                ^^ " with " ^^ String_toUpperCase model ^^ " model").
  set (w1 := snd (Jobs.updateStage jobId stage w)).
  rewrite (bind_inr _ _ w w1 tt) by reflexivity.
  exact (context_then_request line
           (if String.eqb model "pro" then "gemini-2.5-pro" else "gemini-2.5-flash")
           jobId tone translationBrief w1).
Qed.

(** C5, as amended. When the classification is an array, none of its
    entries is [null] and none has an id equal to the sequence of a line,
    the model chosen for the line is [flash]: the stage announced says
    FLASH, no request of the translation goes to another model than
    [gemini-2.5-flash], and when the line is translated, its translation is
    the reply to the one request sent to that model, after the embedding and
    the query of the context. A classification without entries is a case of
    this. *)
Theorem absent_line_defaults_to_flash (items : list JSON) (line : SrtLine)
    (jobId tone translationBrief : string) (w : World) :
  Forall (fun t => t <> JNull) items ->
  Forall (fun t => id_is t (sequence line) <> inr true) items ->
  modelChoice (JArr items) line = inr (JStr "flash") /\
  modelToUse (JStr "flash") = "gemini-2.5-flash" /\
  bus (snd (translateLine jobId tone translationBrief (Jobs.updateStage jobId) (JArr items) line w))
    = bus w ++ [(jobId, progress ("Translating line " ^^ Number_toString (sequence line)
                                  ^^ " with FLASH model"))] /\
  (exists new,
     calls (snd (translateLine jobId tone translationBrief (Jobs.updateStage jobId)
                   (JArr items) line w)) = calls w ++ new /\
     forall request, In (GenerateContent request) new ->
       req_model request = "gemini-2.5-flash" /\ req_json request = false) /\
  (forall translation,
     fst (translateLine jobId tone translationBrief (Jobs.updateStage jobId) (JArr items) line w)
       = inr translation ->
     exists embedding matches,
       let request :=
         {| req_model := "gemini-2.5-flash";
            req_prompt := getStep2_Prompt line (context_of matches) translationBrief tone;
            req_json := false |} in
       calls (snd (translateLine jobId tone translationBrief (Jobs.updateStage jobId)
                     (JArr items) line w))
         = calls w ++ [EmbedContent "text-embedding-004" (text line);
                       Query {| q_vector := embedding; q_topK := 5; q_filter_jobId := jobId |};
                       GenerateContent request] /\
       generateContent (S (S (List.length (calls w)))) request = inr translation).
Proof.
  intros Hnull Hnone.
  assert (Hfalse : Forall (fun t => id_is t (sequence line) = inr false) items).
  { rewrite Forall_forall in *. intros t Ht. apply id_is_false; auto. }
  assert (Hchoice : modelChoice (JArr items) line = inr (JStr "flash")).
  { unfold modelChoice. now rewrite (find_id_none _ _ Hfalse). }
  split; [exact Hchoice|split; [reflexivity|]].
  exact (translateLine_with (JArr items) line "flash" jobId tone translationBrief w Hchoice).
Qed.

(** C6. The triage prompt labels every line [undefined]: between its fixed
    head and foot it holds one row per line of the batch, the text
    [undefined | ] followed by the text of the line, and that label is not
    the print of the sequence number of the line: not of an integer up to
    2^53, and of no number at all on an engine that prints no number as
    [undefined]. That prompt is what the triage call sends to the fast
    model. So two batches with the same texts give the same prompt and the
    same triage call, whatever the sequence numbers of their lines. *)
Theorem triage_prompt_ignores_sequence (batch batch' : list SrtLine) :
  map text batch = map text batch' ->
  getTriageAgentPrompt batch =
    "You are a linguistic triage agent. Classify each subtitle line's complexity. Respond with a JSON array ONLY: `{ "
    ^^ q "classifications" ^^ ": [{ " ^^ q "id" ^^ ": number, " ^^ q "model" ^^ ": "
    ^^ q "flash" ^^ " | " ^^ q "pro" ^^ " }] }`." ^^ Str.lf
    ^^ "    - Use " ^^ q "pro"
    ^^ " for lines with idioms, complex grammar, slang, or deep emotional/cultural nuance." ^^ Str.lf
    ^^ "    - Use " ^^ q "flash" ^^ " for simple, direct, or declarative sentences." ^^ Str.lf
    ^^ "    Input for Classification:" ^^ Str.lf
    ^^ "    ---" ^^ Str.lf
    ^^ "    " ^^ Str.join Str.lf (map (fun l => "undefined | " ^^ text l) batch) ^^ Str.lf
    ^^ "    ---" ^^ Str.lf
    ^^ "    Produce the JSON output." /\
  (forall l z, In l batch -> Num.to_Z (sequence l) = Some z -> (Z.abs z <= 2 ^ 53)%Z ->
     printed_any (SrtLine_id l) = "undefined" /\
     Number_toString (sequence l) <> "undefined") /\
  ((forall n, Number_toString_other n <> "undefined") ->
   forall l, In l batch -> Number_toString (sequence l) <> "undefined") /\
  (forall w,
     calls (snd (triageBatch batch w))
       = calls w ++ [GenerateContent {| req_model := "gemini-2.5-flash";
                                        req_prompt := getTriageAgentPrompt batch;
                                        req_json := true |}]) /\
  getTriageAgentPrompt batch = getTriageAgentPrompt batch' /\
  triageBatch batch = triageBatch batch'.
Proof.
  intros Htexts.
  assert (Hrows : forall b, map triage_row b = map (fun t => "undefined | " ^^ t) (map text b)).
  { intros b; rewrite map_map; apply map_ext; intros l; apply triage_row_is_undefined. }
  assert (Hprompt : getTriageAgentPrompt batch = getTriageAgentPrompt batch').
  { unfold getTriageAgentPrompt. now rewrite (Hrows batch), (Hrows batch'), Htexts. }
  split; [|split; [|split; [|split; [|split]]]].
  - unfold getTriageAgentPrompt.
    replace (map triage_row batch) with (map (fun l => "undefined | " ^^ text l) batch);
      [reflexivity|].
    apply map_ext; intros l; symmetry; apply triage_row_is_undefined.
  - intros l z _ Hz Hsmall. split; [reflexivity|].
    rewrite (Number_toString_integer _ _ Hz Hsmall). apply decimal_is_not_undefined.
  - intros Hother l _. now apply Number_toString_is_not_undefined.
  - intros w. unfold triageBatch, bind.
    pose proof (runJsonTool_calls flashModel (getTriageAgentPrompt batch) w) as Hcalls.
    destruct (runJsonTool flashModel (getTriageAgentPrompt batch) w) as [[e|result] w1];
      cbn [fst snd] in *; [exact Hcalls|].
    unfold lift. destruct (get (Some result) "classifications"); exact Hcalls.
  - exact Hprompt.
  - unfold triageBatch. now rewrite Hprompt.
Qed.

(** The first entry of the classification whose id equals the sequence of a
    line decides for the line, whatever entries follow it. When its [model]
    is a string that is not empty, no request of the translation goes to
    another model than the deep one if the string is exactly [pro], and the
    fast one for every other string; when the line is translated, its
    translation is the reply to the one request sent to that model. The
    stage announced names the string in upper case. *)
Theorem first_matching_entry_decides (before after : list JSON) (t : JSON) (model : string)
    (line : SrtLine) (jobId tone translationBrief : string) (w : World) :
  Forall (fun u => id_is u (sequence line) = inr false) before ->
  id_is t (sequence line) = inr true ->
  get (Some t) "model" = inr (Some (JStr model)) ->
  model <> "" ->
  (Str.ascii_only model = true ->
   bus (snd (translateLine jobId tone translationBrief (Jobs.updateStage jobId)
               (JArr (before ++ t :: after)) line w))
     = bus w ++ [(jobId, progress ("Translating line " ^^ Number_toString (sequence line)
                                   ^^ " with " ^^ Str.toUpperCase model ^^ " model"))]) /\
  (exists new,
     calls (snd (translateLine jobId tone translationBrief (Jobs.updateStage jobId)
                   (JArr (before ++ t :: after)) line w)) = calls w ++ new /\
     forall request, In (GenerateContent request) new ->
       req_model request = (if String.eqb model "pro" then "gemini-2.5-pro"
                            else "gemini-2.5-flash") /\
       req_json request = false) /\
  (forall translation,
     fst (translateLine jobId tone translationBrief (Jobs.updateStage jobId)
            (JArr (before ++ t :: after)) line w) = inr translation ->
     exists embedding matches,
       let request :=
         {| req_model := if String.eqb model "pro" then "gemini-2.5-pro"
                         else "gemini-2.5-flash";
            req_prompt := getStep2_Prompt line (context_of matches) translationBrief tone;
            req_json := false |} in
       calls (snd (translateLine jobId tone translationBrief (Jobs.updateStage jobId)
                     (JArr (before ++ t :: after)) line w))
         = calls w ++ [EmbedContent "text-embedding-004" (text line);
                       Query {| q_vector := embedding; q_topK := 5; q_filter_jobId := jobId |};
                       GenerateContent request] /\
       generateContent (S (S (List.length (calls w)))) request = inr translation).
Proof.
  intros Hbefore Ht Hmodel Hfilled.
  assert (Hchoice : modelChoice (JArr (before ++ t :: after)) line = inr (JStr model)).
  { unfold modelChoice. rewrite (find_id_first _ _ _ _ Hbefore Ht).
    cbn [bindE]. rewrite Hmodel. cbn [bindE or_else truthy].
    destruct (String.eqb_spec model "") as [->|_]; [contradiction|reflexivity]. }
  destruct (translateLine_with _ line model jobId tone translationBrief w Hchoice)
    as (Hbus & Hcalls & Hreply).
  split; [|split; [exact Hcalls|exact Hreply]].
  intros Hascii. rewrite Hbus. unfold String_toUpperCase. now rewrite Hascii.
Qed.

(** A matching entry whose [model] is a truthy value that is not a string
    (a number, [true], an array, an object) makes the translation of the line
    throw a [TypeError], before any stage is announced or any call is made. *)
Theorem model_that_is_no_string_throws (before after : list JSON) (t choice : JSON)
    (line : SrtLine) (jobId tone translationBrief : string) (updateStage : string -> M unit)
    (w : World) :
  Forall (fun u => id_is u (sequence line) = inr false) before ->
  id_is t (sequence line) = inr true ->
  get (Some t) "model" = inr (Some choice) ->
  truthy (Some choice) = true ->
  (forall s, choice <> JStr s) ->
  translateLine jobId tone translationBrief updateStage (JArr (before ++ t :: after)) line w =
    (inl (TypeError "modelChoice.toUpperCase is not a function"), w).
Proof.
  intros Hbefore Ht Hmodel Htruthy Hstring.
  unfold translateLine, modelChoice. rewrite (find_id_first _ _ _ _ Hbefore Ht).
  cbn [bindE]. rewrite Hmodel. cbn [bindE or_else]. rewrite Htruthy.
  unfold bind, lift. destruct choice; try reflexivity. now destruct (Hstring s).
Qed.

End Choice.

Section Brief.
Import TranslationWorkerService.
Context {engine : JsEngine}.

Lemma lookup_app (k : string) (fields more : list (string * JSON)) :
  lookup k (fields ++ more) =
    match lookup k fields with
    | Some v => Some v
    | None => lookup k more
    end.
Proof.
  induction fields as [|[k' v] fields IH]; simpl; [reflexivity|].
  now destruct (String.eqb k k').
Qed.

Lemma mapE_total {A B} (f : A -> Thrown + B) (xs : list A) :
  Forall (fun x => exists y, f x = inr y) xs -> exists ys, mapE f xs = inr ys.
Proof.
  induction 1 as [|x xs (y & Hy) _ (ys & IH)]; simpl; [eauto|].
  rewrite Hy, IH; simpl; eauto.
Qed.

Lemma get_returns (v : JSON) (k : string) :
  v <> JNull -> exists member, get (Some v) k = inr member.
Proof. destruct v; simpl; eauto. contradiction. Qed.

Lemma ToString_any_prints (v : option JSON) :
  (forall x, v = Some x -> prints x = true) -> exists s, ToString_any v = inr s.
Proof.
  intros H. destruct v as [x|]; [|simpl; eauto].
  unfold ToString_any, ToString. rewrite (H x eq_refl). eauto.
Qed.

Lemma join_of_prints (what sep : string) (items : list JSON) :
  Forall (fun x => prints x = true) items ->
  exists joined, join_of what (Some (JArr items)) sep = inr joined.
Proof.
  intros H. unfold join_of.
  destruct (mapE_total join_item items) as (parts & ->); [|simpl; eauto].
  eapply Forall_impl; [|exact H]. intros x Hx.
  destruct x; unfold join_item, ToString; rewrite ?Hx; eauto.
Qed.

(** A blueprint of the declared shape never makes [stringifyBlueprint]
    throw: [keyPoints], [characterProfiles] and [glossary] arrays, the
    profiles and entries not [null], [culturalNuances] an array or absent,
    and what is printed (the summary, the key points, the nuances and the
    members read of the profiles and of the entries) strings, numbers or any
    other values that convert to a primitive. *)
Theorem stringifyBlueprint_returns (fields : list (string * JSON))
    (keyPoints characterProfiles glossary : list JSON) :
  (forall summary, lookup "summary" fields = Some summary -> prints summary = true) ->
  lookup "keyPoints" fields = Some (JArr keyPoints) ->
  Forall (fun k => prints k = true) keyPoints ->
  lookup "characterProfiles" fields = Some (JArr characterProfiles) ->
  lookup "glossary" fields = Some (JArr glossary) ->
  Forall (fun p => p <> JNull /\
                   members_print ["personaName"; "speakingStyle"; "voiceConsistencyRule"] p)
         characterProfiles ->
  Forall (fun g => g <> JNull /\ members_print ["term"; "proposedTranslation"] g) glossary ->
  (lookup "culturalNuances" fields = None \/
   exists nuances, lookup "culturalNuances" fields = Some (JArr nuances) /\
                   Forall (fun n => prints n = true) nuances) ->
  exists brief, stringifyBlueprint (JObj fields) = inr brief.
Proof.
  intros Hs Hk Hkp Hp Hg Hprofiles Hglossary Hn.
  assert (Hmember : forall v k names, v <> JNull -> members_print names v -> In k names ->
            exists member s, get (Some v) k = inr member /\ ToString_any member = inr s).
  { intros v k names Hnull Hprint Hin.
    destruct (get_returns v k Hnull) as (member & Hget). exists member.
    destruct (ToString_any_prints member) as (s0 & Hs0); [|eauto].
    intros x ->. now apply (Hprint k x Hin). }
  assert (Pp : exists ps, mapE profile_piece characterProfiles = inr ps).
  { apply mapE_total. eapply Forall_impl; [|exact Hprofiles]. intros p [Hnull Hprint].
    unfold profile_piece.
    destruct (Hmember p "personaName" _ Hnull Hprint) as (? & ? & -> & H1); [simpl; auto|].
    cbn [bindE]; rewrite H1; cbn [bindE].
    destruct (Hmember p "speakingStyle" _ Hnull Hprint) as (? & ? & -> & H2); [simpl; auto|].
    cbn [bindE]; rewrite H2; cbn [bindE].
    destruct (Hmember p "voiceConsistencyRule" _ Hnull Hprint) as (? & ? & -> & H3);
      [simpl; auto|].
    cbn [bindE]; rewrite H3; cbn [bindE]. eauto. }
  assert (Pg : exists gs, mapE glossary_piece glossary = inr gs).
  { apply mapE_total. eapply Forall_impl; [|exact Hglossary]. intros g [Hnull Hprint].
    unfold glossary_piece.
    destruct (Hmember g "term" _ Hnull Hprint) as (? & ? & -> & H1); [simpl; auto|].
    cbn [bindE]; rewrite H1; cbn [bindE].
    destruct (Hmember g "proposedTranslation" _ Hnull Hprint) as (? & ? & -> & H2);
      [simpl; auto|].
    cbn [bindE]; rewrite H2; cbn [bindE]. eauto. }
  destruct Pp as (ps & Pp), Pg as (gs & Pg).
  destruct (ToString_any_prints (lookup "summary" fields) Hs) as (summary & Hsummary).
  destruct (join_of_prints "blueprint.keyPoints" ", " keyPoints Hkp) as (themes & Hthemes).
  unfold stringifyBlueprint. cbn [get bindE]. rewrite Hsummary. cbn [bindE].
  rewrite Hk, Hthemes. cbn [bindE].
  rewrite Hp. cbn [forEach_of bindE]. rewrite Pp. cbn [bindE].
  rewrite Hg. cbn [forEach_of bindE]. rewrite Pg. cbn [bindE].
  destruct Hn as [->|(nuances & -> & Hnuances)]; [eauto|].
  cbn [truthy length_of ToNumber bindE].
  destruct (PrimFloat.ltb _ _); [|eauto].
  destruct (join_of_prints "blueprint.culturalNuances" (Str.lf ^^ "- ") nuances Hnuances)
    as (joined & ->).
  cbn [bindE]. eauto.
Qed.

(** The section on cultural nuances is written for an array that is not
    empty only: a blueprint whose [culturalNuances] is a falsy value or the
    empty array gives the brief of the blueprint without the member. *)
Theorem brief_skips_empty_nuances (fields : list (string * JSON)) (nuances : JSON) :
  lookup "culturalNuances" fields = None ->
  truthy (Some nuances) = false \/ nuances = JArr [] ->
  stringifyBlueprint (JObj (fields ++ [("culturalNuances", nuances)]))
    = stringifyBlueprint (JObj fields).
Proof.
  intros Habsent Hempty.
  assert (Hother : forall k, String.eqb k "culturalNuances" = false ->
            lookup k (fields ++ [("culturalNuances", nuances)]) = lookup k fields).
  { intros k Hk. rewrite lookup_app. simpl. rewrite Hk. now destruct (lookup k fields). }
  unfold stringifyBlueprint. cbn [get]. rewrite !Hother by reflexivity.
  rewrite lookup_app, Habsent. simpl lookup. cbn [bindE].
  destruct (ToString_any _); cbn [bindE]; [reflexivity|].
  destruct (join_of _ _ _); cbn [bindE]; [reflexivity|].
  destruct (forEach_of _ _ profile_piece); cbn [bindE]; [reflexivity|].
  destruct (forEach_of _ _ glossary_piece); cbn [bindE]; [reflexivity|].
  destruct Hempty as [->| ->]; reflexivity.
Qed.

End Brief.

(** ** Strings *)

Lemma append_assoc (a b c : string) : (a ^^ b) ^^ c = a ^^ b ^^ c.
Proof. induction a as [|x a IH]; simpl; [reflexivity|now rewrite IH]. Qed.

Lemma after_gt_closed (inner after : string) : Str.after_gt (inner ^^ String ">" after) <> None.
Proof.
  induction inner as [|c inner IH]; simpl; [discriminate|].
  now destruct (Ascii.eqb c ">").
Qed.

Lemma after_gt_open (a b : string) : Str.after_gt (a ^^ b) = None -> Str.after_gt b = None.
Proof.
  induction a as [|c a IH]; simpl; [auto|].
  destruct (Ascii.eqb c ">"); [discriminate|auto].
Qed.

Lemma after_gt_open_left (a b : string) : Str.after_gt (a ^^ b) = None -> Str.after_gt a = None.
Proof.
  induction a as [|c a IH]; simpl; [auto|].
  destruct (Ascii.eqb c ">"); [discriminate|auto].
Qed.

Lemma after_gt_shorter (s tail : string) :
  Str.after_gt s = Some tail -> String.length tail < String.length s.
Proof.
  revert tail; induction s as [|c s IH]; simpl; intros tail H; [discriminate|].
  destruct (Ascii.eqb c ">").
  - injection H as <-. lia.
  - specialize (IH _ H). lia.
Qed.


Lemma untagged_has_no_tag (s : string) : untagged s -> ~ has_tag s.
Proof.
  intros Hs (before & inner & after & E).
  apply (after_gt_closed inner after). apply (Hs before). exact E.
Qed.

Lemma strip_tags_fuel_untagged (fuel : nat) (s : string) :
  String.length s <= fuel -> untagged (Str.strip_tags_fuel fuel s).
Proof.
  revert s; induction fuel as [|fuel IH]; intros s Hlen a b E.
  - destruct s; [|simpl in Hlen; lia]. destruct a; discriminate.
  - destruct s as [|c rest]; cbn [Str.strip_tags_fuel] in E; [destruct a; discriminate|].
    simpl in Hlen.
    destruct (Ascii.eqb_spec c "<") as [->|Hc].
    + destruct (Str.after_gt rest) as [tail|] eqn:Etail.
      * apply (IH tail) with (a := a); [|exact E].
        apply after_gt_shorter in Etail. lia.
      * destruct a as [|x a]; simpl in E; inversion E; subst.
        -- exact Etail.
        -- now apply after_gt_open in Etail.
    + destruct a as [|x a]; simpl in E; inversion E; subst.
      * contradiction.
      * now apply (IH rest) with (a := a); [lia|].
Qed.

Lemma trimStart_suffix (s : string) : exists skipped, s = skipped ^^ Str.trimStart s.
Proof.
  induction s as [|c s (skipped & IH)]; simpl; [now exists ""|].
  destruct (Str.is_space c).
  - exists (String c skipped). simpl. now rewrite <- IH.
  - now exists "".
Qed.

Lemma trimEnd_prefix (s : string) : exists dropped, s = Str.trimEnd s ^^ dropped.
Proof.
  induction s as [|c s (dropped & IH)]; simpl; [now exists ""|].
  destruct (Str.trimEnd s) as [|k kept].
  - destruct (Str.is_space c).
    + now exists (String c s).
    + exists dropped. simpl. f_equal. exact IH.
  - exists dropped. simpl. f_equal. exact IH.
Qed.

Lemma trim_untagged (s : string) : untagged s -> untagged (Str.trim s).
Proof.
  intros Hs a b E. unfold Str.trim in E.
  destruct (trimStart_suffix s) as (skipped & Hstart).
  destruct (trimEnd_prefix (Str.trimStart s)) as (dropped & Hend).
  apply after_gt_open_left with (b := dropped). apply (Hs (skipped ^^ a)).
  rewrite Hstart, Hend, E at 1. now rewrite !append_assoc.
Qed.

Lemma trimEnd_idempotent (s : string) : Str.trimEnd (Str.trimEnd s) = Str.trimEnd s.
Proof.
  induction s as [|c s IH]; [reflexivity|]. cbn [Str.trimEnd].
  destruct (Str.trimEnd s) as [|k kept] eqn:E.
  - destruct (Str.is_space c) eqn:Ec; [reflexivity|]. simpl. now rewrite Ec.
  - cbn [Str.trimEnd]. cbn [Str.trimEnd] in IH. now rewrite IH.
Qed.

Lemma trimStart_head (s : string) :
  Str.trimStart s = "" \/
  exists c rest, Str.trimStart s = String c rest /\ Str.is_space c = false.
Proof.
  induction s as [|c s IH]; simpl; [now left|].
  destruct (Str.is_space c) eqn:Ec; [exact IH|]. right; eauto.
Qed.

Lemma trim_idempotent (s : string) : Str.trim (Str.trim s) = Str.trim s.
Proof.
  unfold Str.trim.
  destruct (trimStart_head s) as [->|(c & rest & -> & Hc)]; [reflexivity|].
  assert (Hhead : exists kept, Str.trimEnd (String c rest) = String c kept).
  { cbn [Str.trimEnd]. destruct (Str.trimEnd rest); rewrite ?Hc; eauto. }
  destruct Hhead as (kept & Hkept).
  rewrite Hkept at 1. cbn [Str.trimStart]. rewrite Hc, <- Hkept.
  apply trimEnd_idempotent.
Qed.

Lemma ascii_only_app (a b : string) :
  Str.ascii_only (a ^^ b) = Str.ascii_only a && Str.ascii_only b.
Proof.
  induction a as [|c a IH]; simpl; [reflexivity|]. now rewrite IH, andb_assoc.
Qed.

Lemma after_gt_ascii (s tail : string) :
  Str.ascii_only s = true -> Str.after_gt s = Some tail -> Str.ascii_only tail = true.
Proof.
  revert tail; induction s as [|c s IH]; simpl; intros tail Hs H; [discriminate|].
  apply andb_prop in Hs as [_ Hs].
  destruct (Ascii.eqb c ">"); [now injection H as <-|auto].
Qed.

Lemma strip_tags_fuel_ascii (fuel : nat) (s : string) :
  Str.ascii_only s = true -> Str.ascii_only (Str.strip_tags_fuel fuel s) = true.
Proof.
  revert s; induction fuel as [|fuel IH]; intros s Hs; [exact Hs|].
  destruct s as [|c rest]; cbn [Str.strip_tags_fuel]; [reflexivity|].
  pose proof Hs as Hboth. cbn [Str.ascii_only] in Hboth. apply andb_prop in Hboth as [Hc Hrest].
  destruct (Ascii.eqb c "<").
  - destruct (Str.after_gt rest) as [tail|] eqn:Etail; [|exact Hs].
    apply IH. now apply after_gt_ascii with (s := rest).
  - cbn [Str.ascii_only]. rewrite Hc. now apply IH.
Qed.

Lemma trim_ascii (s : string) : Str.ascii_only s = true -> Str.ascii_only (Str.trim s) = true.
Proof.
  intros Hs. unfold Str.trim.
  destruct (trimStart_suffix s) as (skipped & Hstart).
  destruct (trimEnd_prefix (Str.trimStart s)) as (dropped & Hend).
  rewrite Hstart, ascii_only_app in Hs. apply andb_prop in Hs as [_ Hs].
  rewrite Hend, ascii_only_app in Hs. now apply andb_prop in Hs as [Hs _].
Qed.

Section Texts.
Import TranslationWorkerService.
Context {engine : JsEngine} {parser : SrtParser}.

(** The text of a line that [parseSrt] made from a block of ASCII text
    holds no markup tag, and no white space at its ends: it is ASCII text
    that trimming again leaves as it is. *)
Theorem parsed_text_is_plain (srtContent : string) (entries : list SrtEntry) :
  fromSrt srtContent = inr entries ->
  Forall (fun e => Str.ascii_only (entry_text e) = true) entries ->
  exists lines,
    parseSrt srtContent = inr lines /\
    Forall (fun l => ~ has_tag (text l) /\
                     Str.ascii_only (text l) = true /\
                     String_trim (text l) = text l) lines.
Proof.
  intros H Hascii. exists (map parsed_line entries). split; [now apply parseSrt_structural|].
  apply Forall_map. eapply Forall_impl; [|exact Hascii]. intros entry He.
  cbn [parsed_line text].
  assert (Hstripped : Str.ascii_only (Str.strip_tags (entry_text entry)) = true)
    by now apply strip_tags_fuel_ascii.
  assert (Htext : String_trim (Str.strip_tags (entry_text entry))
                  = Str.trim (Str.strip_tags (entry_text entry)))
    by (unfold String_trim; now rewrite Hstripped).
  rewrite Htext.
  assert (Htrimmed : Str.ascii_only (Str.trim (Str.strip_tags (entry_text entry))) = true)
    by now apply trim_ascii.
  split; [|split].
  - apply untagged_has_no_tag, trim_untagged, strip_tags_fuel_untagged. apply Nat.le_refl.
  - exact Htrimmed.
  - unfold String_trim. rewrite Htrimmed. apply trim_idempotent.
Qed.

End Texts.

(** ** More examples, run *)

Section CornerExamples.
Import TranslationWorkerService Jobs Fixture.

Local Existing Instance Sample.engine.
Local Existing Instance reader.

Lemma executeTranslation_renders_every_line_witness :
  exists result w',
    executeTranslation (upstream := Sample.healthy) "42" Sample.three_lines "Casual" "brief"
      (updateStage "42") empty_world = (inr result, w') /\
    exists lines texts,
      parseSrt Sample.three_lines = inr lines /\
      List.length texts = List.length lines /\
      result = toSrt (rendered lines texts) /\
      map block_id (rendered lines texts) = map (fun l => Number_toString (sequence l)) lines /\
      map block_startTime (rendered lines texts) = map startTime lines /\
      map block_endTime (rendered lines texts) = map endTime lines /\
      map block_text (rendered lines texts) = texts.
Proof.
  destruct (executeTranslation (upstream := Sample.healthy) "42" Sample.three_lines "Casual"
              "brief" (updateStage "42") empty_world) as [[e|result] w'] eqn:E;
    [vm_compute in E; discriminate|].
  exists result, w'. split; [reflexivity|].
  exact (executeTranslation_renders_every_line (upstream := Sample.healthy) "42"
           Sample.three_lines "Casual" "brief" (updateStage "42") empty_world w' result E).
Defined.

Lemma indexContent_upserts_every_line_witness :
  exists w',
    indexContent (upstream := Sample.healthy) "42"
      (mapi fallback_line ["Hello there"; "Bye"]) empty_world = (inr tt, w') /\
    map vec_id (vectorIndex w') = ["42-1"; "42-2"] /\
    exists vectors,
      calls w' = [BatchEmbedContents embeddingModelName ["Hello there"; "Bye"]]
                 ++ map Upsert (chunks 100 vectors) /\
      vectorIndex w' = store_upsert vectors [].
Proof.
  destruct (indexContent (upstream := Sample.healthy) "42"
              (mapi fallback_line ["Hello there"; "Bye"]) empty_world)
    as [[e|[]] w'] eqn:E; [vm_compute in E; discriminate|].
  destruct (indexContent_upserts_every_line (upstream := Sample.healthy) "42"
              (mapi fallback_line ["Hello there"; "Bye"]) empty_world w' E)
    as (embeddings & vectors & _ & _ & _ & Hcalls & _ & _ & Hindex).
  exists w'. split; [reflexivity|]. split.
  - vm_compute in E. injection E as <-. reflexivity.
  - exists vectors. split; [exact Hcalls|exact Hindex].
Defined.

Lemma indexContent_needs_an_embedding_per_line_witness :
  fst (indexContent (upstream := Corner.terse) "42"
         (mapi fallback_line ["Hello there"; "Bye"]) empty_world)
    = inl (TypeError "Cannot read properties of undefined (reading 'values')") /\
  vectorIndex (snd (indexContent (upstream := Corner.terse) "42"
                      (mapi fallback_line ["Hello there"; "Bye"]) empty_world)) = [].
Proof.
  destruct (indexContent_needs_an_embedding_per_line (upstream := Corner.terse) "42"
              (mapi fallback_line ["Hello there"; "Bye"]) empty_world [])
    as (Hthrown & _ & Hindex); [reflexivity|simpl; lia|].
  split; [exact Hthrown|exact Hindex].
Defined.

(** C5: the claim fails. The classification holds [null] and nothing
    else, so no entry of it has the id of line 1; the translation of the
    line throws when it reads the id of that entry, before any stage is
    announced or any call is made. *)
Lemma null_entry_stops_the_line :
  translateLine (upstream := Sample.healthy) "42" "Casual" "brief" (updateStage "42")
    (JArr [JNull]) (fallback_line 0 "Hello") empty_world
  = (inl (TypeError "Cannot read properties of null (reading 'id')"), empty_world).
Proof. reflexivity. Qed.

Lemma absent_line_defaults_to_flash_witness :
  List.length Sample.fifteen = 15 /\
  nth_error Sample.fifteen 6 = Some Sample.line_seven /\
  modelChoice (JArr Sample.all_but_seven) Sample.line_seven = inr (JStr "flash") /\
  exists w' context,
    translateLine (upstream := Sample.healthy) "42" "Casual" "brief" (updateStage "42")
      (JArr Sample.all_but_seven) Sample.line_seven Sample.indexed
      = (inr "(gemini-2.5-flash)", w') /\
    bus w' = [("42", progress "Translating line 7 with FLASH model")] /\
    skipn (List.length (calls Sample.indexed)) (calls w')
      = [EmbedContent "text-embedding-004" "Hello there";
         Query {| q_vector := [Num.of_nat 11]; q_topK := 5; q_filter_jobId := "42" |};
         GenerateContent
           {| req_model := "gemini-2.5-flash";
              req_prompt := getStep2_Prompt Sample.line_seven context "brief" "Casual";
              req_json := false |}].
Proof.
  split; [reflexivity|split; [reflexivity|]].
  destruct (absent_line_defaults_to_flash (upstream := Sample.healthy) Sample.all_but_seven
              Sample.line_seven "42" "Casual" "brief" Sample.indexed)
    as (Hchoice & _ & Hbus & _ & Hreply).
  - repeat constructor; discriminate.
  - repeat constructor; discriminate.
  - split; [exact Hchoice|].
    destruct (translateLine (upstream := Sample.healthy) "42" "Casual" "brief"
                (updateStage "42") (JArr Sample.all_but_seven) Sample.line_seven
                Sample.indexed) as [[e|translation] w'] eqn:E;
      [vm_compute in E; discriminate|].
    cbn [fst snd] in Hbus, Hreply.
    destruct (Hreply translation eq_refl) as (embedding & matches & Hcalls & Hgen).
    assert (Ht : translation = "(gemini-2.5-flash)")
      by (vm_compute in E; now injection E as <- _).
    subst translation.
    exists w', ("Hello there" ^^ Str.lf ^^ "Bye"). split; [reflexivity|]. split; [exact Hbus|].
    vm_compute in E. injection E as <-. reflexivity.
Defined.

Lemma triage_prompt_ignores_sequence_witness :
  map (fun l => Num.to_Z (sequence l)) Sample.batch_a
    <> map (fun l => Num.to_Z (sequence l)) Sample.batch_b /\
  getTriageAgentPrompt Sample.batch_a = getTriageAgentPrompt Sample.batch_b /\
  exists head foot,
    getTriageAgentPrompt Sample.batch_a
      = head ^^ "undefined | Hello" ^^ Str.lf ^^ "undefined | Bye" ^^ foot /\
    calls (snd (triageBatch (upstream := Sample.healthy) Sample.batch_a empty_world))
      = [GenerateContent {| req_model := "gemini-2.5-flash";
                            req_prompt := getTriageAgentPrompt Sample.batch_a;
                            req_json := true |}].
Proof.
  split; [vm_compute; discriminate|].
  destruct (triage_prompt_ignores_sequence (upstream := Sample.healthy) Sample.batch_a
              Sample.batch_b eq_refl) as (Hrows & _ & _ & Hcalls & Hsame & _).
  split; [exact Hsame|].
  exists ("You are a linguistic triage agent. Classify each subtitle line's complexity. Respond with a JSON array ONLY: `{ "
          ^^ q "classifications" ^^ ": [{ " ^^ q "id" ^^ ": number, " ^^ q "model" ^^ ": "
          ^^ q "flash" ^^ " | " ^^ q "pro" ^^ " }] }`." ^^ Str.lf
          ^^ "    - Use " ^^ q "pro"
          ^^ " for lines with idioms, complex grammar, slang, or deep emotional/cultural nuance." ^^ Str.lf
          ^^ "    - Use " ^^ q "flash" ^^ " for simple, direct, or declarative sentences." ^^ Str.lf
          ^^ "    Input for Classification:" ^^ Str.lf
          ^^ "    ---" ^^ Str.lf
          ^^ "    "),
         (Str.lf ^^ "    ---" ^^ Str.lf ^^ "    Produce the JSON output.").
  split; [rewrite Hrows; vm_compute; reflexivity|].
  exact (Hcalls empty_world).
Defined.

Lemma first_matching_entry_decides_witness :
  exists w' context,
    translateLine (upstream := Sample.healthy) "42" "Casual" "brief" (updateStage "42")
      (JArr Corner.twice) Corner.line_two Sample.indexed
      = (inr "(gemini-2.5-pro)", w') /\
    bus w' = [("42", progress "Translating line 2 with PRO model")] /\
    skipn (List.length (calls Sample.indexed)) (calls w')
      = [EmbedContent "text-embedding-004" "Use the Force";
         Query {| q_vector := [Num.of_nat 13]; q_topK := 5; q_filter_jobId := "42" |};
         GenerateContent
           {| req_model := "gemini-2.5-pro";
              req_prompt := getStep2_Prompt Corner.line_two context "brief" "Casual";
              req_json := false |}].
Proof.
  destruct (first_matching_entry_decides (upstream := Sample.healthy)
              [Sample.classification 1 "flash"] [Sample.classification 2 "flash"]
              (Sample.classification 2 "pro") "pro" Corner.line_two "42" "Casual" "brief"
              Sample.indexed) as (Hbus & _ & _); try reflexivity.
  - repeat constructor.
  - discriminate.
  - specialize (Hbus eq_refl).
    change (JArr ([Sample.classification 1 "flash"]
                  ++ [Sample.classification 2 "pro"; Sample.classification 2 "flash"]))
      with (JArr Corner.twice) in Hbus.
    destruct (translateLine (upstream := Sample.healthy) "42" "Casual" "brief"
                (updateStage "42") (JArr Corner.twice) Corner.line_two Sample.indexed)
      as [[e|translation] w'] eqn:E; [vm_compute in E; discriminate|].
    assert (Ht : translation = "(gemini-2.5-pro)")
      by (vm_compute in E; now injection E as <- _).
    subst translation.
    exists w', ("Hello there" ^^ Str.lf ^^ "Bye"). split; [reflexivity|]. split; [exact Hbus|].
    vm_compute in E. injection E as <-. reflexivity.
Defined.

Lemma model_that_is_no_string_throws_witness :
  translateLine (upstream := Sample.healthy) "42" "Casual" "brief" (updateStage "42")
    (JArr [Corner.not_a_string]) (fallback_line 0 "Hello") empty_world
  = (inl (TypeError "modelChoice.toUpperCase is not a function"), empty_world).
Proof.
  apply (model_that_is_no_string_throws (upstream := Sample.healthy) [] []
           Corner.not_a_string (JBool true) (fallback_line 0 "Hello") "42" "Casual" "brief"
           (updateStage "42") empty_world); try reflexivity.
  - constructor.
  - discriminate.
Defined.

Lemma stringifyBlueprint_returns_witness :
  exists brief, stringifyBlueprint Sample.blueprint = inr brief.
Proof.
  apply (stringifyBlueprint_returns _ [JStr "parting"]
           [JObj [("personaName", JStr "Obi"); ("speakingStyle", JStr "calm");
                  ("voiceConsistencyRule", JStr "formal")]]
           [JObj [("term", JStr "Jedi"); ("proposedTranslation", JStr "B")]]);
    try reflexivity.
  - intros summary H. injection H as <-. reflexivity.
  - repeat constructor.
  - repeat constructor; [discriminate|].
    intros k x [<-|[<-|[<-|[]]]] H; injection H as <-; reflexivity.
  - repeat constructor; [discriminate|].
    intros k x [<-|[<-|[]]] H; injection H as <-; reflexivity.
  - right. exists []. split; [reflexivity|constructor].
Defined.

(** A blueprint whose summary is an object with a member [toString] makes
    [stringifyBlueprint] throw. *)
Lemma summary_that_does_not_print :
  stringifyBlueprint (JObj (("summary", JObj [("toString", JNum 1)]) :: Corner.bare_blueprint))
  = inl (TypeError "Cannot convert object to primitive value").
Proof. reflexivity. Qed.

Lemma brief_skips_empty_nuances_witness :
  stringifyBlueprint Sample.blueprint = stringifyBlueprint (JObj Corner.bare_blueprint) /\
  stringifyBlueprint (JObj (Corner.bare_blueprint ++ [("culturalNuances", JNull)]))
    = stringifyBlueprint (JObj Corner.bare_blueprint).
Proof.
  split; [reflexivity|].
  apply (brief_skips_empty_nuances Corner.bare_blueprint JNull); [reflexivity|now left].
Defined.

Lemma parsed_text_is_plain_witness :
  exists lines,
    parseSrt Sample.three_lines = inr lines /\
    map text lines = ["Hello there"; "Use the Force"; "Bye"] /\
    Forall (fun l => ~ has_tag (text l) /\
                     Str.ascii_only (text l) = true /\
                     String_trim (text l) = text l) lines.
Proof.
  destruct (parsed_text_is_plain (parser := reader) Sample.three_lines
              (read Sample.three_lines) eq_refl) as (lines & Hparse & Hplain).
  - repeat constructor.
  - exists lines. split; [exact Hparse|split; [|exact Hplain]].
    vm_compute in Hparse. injection Hparse as <-. reflexivity.
Defined.

End CornerExamples.
